(** * mf2py: the microformats2 parser of [mf2py/parser.py]

    A shallow embedding of [mf2py.parser]: the [Parser] class with its
    nested functions [handle_microformat], [parse_props], [parse_rels] and
    [parse_el], the [to_dict] view and the module-level [parse].

    - The document is a BeautifulSoup tree: tags with a name, an attribute
      dictionary whose values are strings or token lists (bs4 splits
      multi-valued attributes such as [class] and [rel]), and contents that
      interleave text and tags.
    - [self._default_date] is one attribute of the parser object that every
      nested function reads and writes; it is threaded explicitly as the
      state ([State]) of [handle_microformat], [parse_props] and [parse_el].
    - [self.__parsed__] is threaded through [parse_rels].
    - Calls into the URL library ([urlparse], [urljoin]) and the network
      ([requests.get]) can raise; they live in the error monad [Result].
    - The sibling modules [mf2_classes], [parse_property],
      [implied_properties], [dom_helpers], [backcompat] and [temp_fixes] are
      not part of [parser.py]; they are collected in the record
      [Collaborators] and every definition is parametric in it.
    - The parser is given twice: first with helpers that return, where the
      records, the properties and the rels are studied; then, in the module
      [Raising], with the exceptions of the helpers and the recursion limit
      of the interpreter, where it is shown when [parse] returns and that
      it then returns what the first parser computes. *)

From Stdlib Require Import String Ascii List Bool Arith Lia.
Import ListNotations.
Set Warnings "-register-all".
Local Open Scope string_scope.
Local Open Scope list_scope.

(* ===================================================================== *)
(** ** Python strings *)
(* ===================================================================== *)

Module Py.

(** [c in string.whitespace]: strings are byte strings here, and the
    whitespace is the ASCII one. *)
Definition is_space (c : ascii) : bool :=
  match nat_of_ascii c with
  | 9 | 10 | 11 | 12 | 13 | 32 => true
  | _ => false
  end.

(** [s.lstrip()] *)
Fixpoint lstrip (s : string) : string :=
  match s with
  | EmptyString => EmptyString
  | String c s' => if is_space c then lstrip s' else s
  end.

(** [s.rstrip()] *)
Fixpoint rstrip (s : string) : string :=
  match s with
  | EmptyString => EmptyString
  | String c s' =>
      match rstrip s' with
      | EmptyString => if is_space c then EmptyString else String c EmptyString
      | r => String c r
      end
  end.

(** [s.strip()] *)
Definition strip (s : string) : string := rstrip (lstrip s).

(** [s.split()]: the maximal runs of non-whitespace characters.  [cur] is
    the run being read, in reverse. *)
Fixpoint split_aux (s : string) (cur : list ascii) : list string :=
  let flush rest :=
    match cur with
    | [] => rest
    | _ => string_of_list_ascii (rev cur) :: rest
    end in
  match s with
  | EmptyString => flush []
  | String c s' => if is_space c then flush (split_aux s' []) else split_aux s' (c :: cur)
  end.

Definition split (s : string) : list string := split_aux s [].

(** [sep.join(l)] *)
Fixpoint join (sep : string) (l : list string) : string :=
  match l with
  | [] => ""
  | [x] => x
  | x :: rest => x ++ sep ++ join sep rest
  end.

(** [list(s)]: iterating a string yields its characters as strings. *)
Fixpoint chars (s : string) : list string :=
  match s with
  | EmptyString => []
  | String c s' => String c EmptyString :: chars s'
  end.

(** [sub in s] for strings *)
Fixpoint contains (sub s : string) : bool :=
  String.prefix sub s ||
  match s with
  | EmptyString => false
  | String _ s' => contains sub s'
  end.

(** [bool(s)] *)
Definition truthy (s : string) : bool :=
  match s with EmptyString => false | _ => true end.

End Py.

(* ===================================================================== *)
(** ** Python dictionaries keyed by strings *)
(* ===================================================================== *)

Section Dict.
Context {V : Type}.

(** Keys in insertion order, each at most once. *)
Definition Dict := list (string * V).

(** [d.get(k)] *)
Fixpoint dict_get (k : string) (d : Dict) : option V :=
  match d with
  | [] => None
  | (k', v) :: d' => if String.eqb k k' then Some v else dict_get k d'
  end.

(** [d.get(k, dflt)] *)
Definition dict_get_or (k : string) (dflt : V) (d : Dict) : V :=
  match dict_get k d with Some v => v | None => dflt end.

(** [k in d] *)
Definition dict_mem (k : string) (d : Dict) : bool :=
  match dict_get k d with Some _ => true | None => false end.

(** [d[k] = v] *)
Fixpoint dict_set (k : string) (v : V) (d : Dict) : Dict :=
  match d with
  | [] => [(k, v)]
  | (k', v') :: d' =>
      if String.eqb k k' then (k', v) :: d' else (k', v') :: dict_set k v d'
  end.
End Dict.
Arguments Dict V : clear implicits.

(** [d.setdefault(k, []).append(x)], also written
    [l = d.get(k, []); l.append(x); d[k] = l] *)
Definition dict_append {A} (k : string) (x : A) (d : Dict (list A)) : Dict (list A) :=
  dict_set k (dict_get_or k [] d ++ [x]) d.

(** [l = d.get(k, []); l.extend(xs); d[k] = l] *)
Definition dict_extend {A} (k : string) (xs : list A) (d : Dict (list A)) : Dict (list A) :=
  dict_set k (dict_get_or k [] d ++ xs) d.

(* ===================================================================== *)
(** ** The document tree *)
(* ===================================================================== *)

(** An attribute value of a bs4 tag: a string, or the token list of a
    multi-valued attribute. *)
Inductive AttrValue : Type :=
| AStr (s : string)
| AList (tokens : list string).

Inductive Node : Type :=
| NText (s : string)
| NTag (name : string) (attrs : list (string * AttrValue)) (contents : list Node).

Definition is_tag (n : Node) : bool :=
  match n with NTag _ _ _ => true | NText _ => false end.

Definition el_name (el : Node) : string :=
  match el with NTag name _ _ => name | NText _ => "" end.

Definition el_attrs (el : Node) : list (string * AttrValue) :=
  match el with NTag _ attrs _ => attrs | NText _ => [] end.

Definition el_contents (el : Node) : list Node :=
  match el with NTag _ _ contents => contents | NText _ => [] end.

(** [el.get(k)] *)
Definition el_get (el : Node) (k : string) : option AttrValue :=
  dict_get k (el_attrs el).

(** [el.get(k, dflt)] *)
Definition el_get_or (el : Node) (k : string) (dflt : AttrValue) : AttrValue :=
  dict_get_or k dflt (el_attrs el).

(** [el.find_all(True, recursive=False)]: the direct children that are tags *)
Definition child_tags (el : Node) : list Node := filter is_tag (el_contents el).

(** Every tag strictly below [el], in document order. *)
Fixpoint descendants (el : Node) : list Node :=
  match el with
  | NText _ => []
  | NTag _ _ contents =>
      flat_map (fun c => match c with
                         | NText _ => []
                         | NTag _ _ _ => c :: descendants c
                         end) contents
  end.

(** [el.find(name)] *)
Definition find (el : Node) (name : string) : option Node :=
  List.find (fun d => String.eqb (el_name d) name) (descendants el).

(** [el.find_all(names, attrs={attr: True})] *)
Definition find_all (el : Node) (names : list string) (attr : string) : list Node :=
  filter (fun d => existsb (String.eqb (el_name d)) names &&
                   match el_get d attr with Some _ => true | None => false end)
         (descendants el).

(** Python's view of an attribute value. *)
Definition isinstance_list (v : AttrValue) : bool :=
  match v with AList _ => true | AStr _ => false end.

(** [for x in v] *)
Definition py_iter (v : AttrValue) : list string :=
  match v with AList l => l | AStr s => Py.chars s end.

(** [x in v] *)
Definition py_in (x : string) (v : AttrValue) : bool :=
  match v with
  | AList l => existsb (String.eqb x) l
  | AStr s => Py.contains x s
  end.

(** [bool(v)] *)
Definition py_truthy (v : AttrValue) : bool :=
  match v with
  | AStr s => Py.truthy s
  | AList [] => false
  | AList (_ :: _) => true
  end.

(** [v.split()] of the string that [classes] is when it is not a list *)
Definition py_split (v : AttrValue) : AttrValue :=
  match v with AStr s => AList (Py.split s) | AList l => AList l end.

(* ===================================================================== *)
(** ** The parsed output *)
(* ===================================================================== *)

(** A plain property value: a string, or a flat dictionary of strings such
    as the [{html, value}] of an embedded-markup property. *)
Inductive Scalar : Type :=
| SStr (s : string)
| SDict (fields : Dict string).

(** The dictionary built by [handle_microformat]; optional keys are
    [option]s: [None] is an absent key. *)
Inductive PropertyValue : Type :=
| PScalar (v : Scalar)
| PRecord (m : Microformat)
with Microformat : Type :=
| mkMicroformat (mf_type : list string)
                (mf_properties : Dict (list PropertyValue))
                (mf_shape mf_coords : option AttrValue)
                (mf_children : option (list Microformat))
                (mf_value : option Scalar).

Definition mf_type (m : Microformat) := let '(mkMicroformat t _ _ _ _ _) := m in t.
Definition mf_properties (m : Microformat) := let '(mkMicroformat _ p _ _ _ _) := m in p.
Definition mf_shape (m : Microformat) := let '(mkMicroformat _ _ s _ _ _) := m in s.
Definition mf_coords (m : Microformat) := let '(mkMicroformat _ _ _ c _ _) := m in c.
Definition mf_children (m : Microformat) := let '(mkMicroformat _ _ _ _ c _) := m in c.
Definition mf_value (m : Microformat) := let '(mkMicroformat _ _ _ _ _ v) := m in v.

Definition Props := Dict (list PropertyValue).

(** An entry of [__parsed__["alternates"]]. *)
Record Alternate : Type := mkAlternate {
  alt_url : string;
  alt_rel : option string;
  alt_media : option AttrValue;
  alt_hreflang : option AttrValue;
  alt_type : option AttrValue
}.

(** [self.__parsed__] *)
Record Parsed : Type := mkParsed {
  items : list Microformat;
  rels : Dict (list string);
  alternates : option (list Alternate)
}.

(** What [to_dict] returns: the whole dictionary, or a bare list. *)
Inductive ToDict : Type :=
| FullDict (p : Parsed)
| ItemList (l : list Microformat).

(* ===================================================================== *)
(** ** Raised exceptions *)
(* ===================================================================== *)

Inductive PyError : Type :=
| ValueError (msg : string)
| TypeError (msg : string)
| RequestException (msg : string)
| RecursionError                  (* RuntimeError before Python 3.5 *)
| OtherError (name msg : string). (* any other exception class *)

Inductive Result (A : Type) : Type :=
| Ok (a : A)
| Raise (e : PyError).
Arguments Ok {A} a.
Arguments Raise {A} e.

Definition bind {A B} (r : Result A) (k : A -> Result B) : Result B :=
  match r with
  | Ok a => k a
  | Raise e => Raise e
  end.

Notation "x <- r ;; k" := (bind r (fun x => k))
  (at level 61, r at next level, right associativity).
Notation "' p <- r ;; k" := (bind r (fun p => k))
  (at level 61, p pattern, r at next level, right associativity).

(** A loop whose body can raise. *)
Fixpoint for_each {A S} (body : A -> S -> Result S) (l : list A) (s : S) : Result S :=
  match l with
  | [] => Ok s
  | x :: l' => s' <- body x s ;; for_each body l' s'
  end.

Definition succeeds {A} (r : Result A) : Prop := exists a, r = Ok a.

(* ===================================================================== *)
(** ** Collaborators *)
(* ===================================================================== *)

(** [requests.get(url)]: the pieces of the response that [__init__] reads. *)
Record Response : Type := mkResponse {
  content_type : option string;   (* data.headers.get('content-type') *)
  resp_text : string;             (* data.text *)
  resp_content : string           (* data.content *)
}.

(** [self.__url__]: [None], the [url] argument, the [href] of [<base>], or
    the result of [urljoin]. *)
Definition Url := option AttrValue.

(** [self._default_date] *)
Definition State := option string.

(** The functions [parser.py] imports.  For the sibling modules of the
    package this is what they return when they return, and [parse_property]
    returns a value, never [None]; when they raise instead is told by
    [Failures] below.  The URL library and the network can raise. *)
Record Collaborators : Type := mkCollaborators {
  (* mf2_classes *)
  mf2_root : AttrValue -> list string;
  mf2_text : AttrValue -> list string;
  mf2_url : AttrValue -> list string;
  mf2_datetime : AttrValue -> list string;
  mf2_embedded : AttrValue -> list string;
  (* parse_property *)
  property_text : Node -> string;
  property_url : Node -> Url -> string;
  property_datetime : Node -> State -> string * option string;
  property_embedded : Node -> Scalar;
  (* implied_properties *)
  implied_name : Node -> list Scalar;
  implied_photo : Node -> Url -> option (list Scalar);
  implied_url : Node -> Url -> option (list Scalar);
  (* dom_helpers *)
  get_attr : Node -> string -> option AttrValue;
  (* temp_fixes, backcompat: rewrite the document before the parse *)
  temp_fixes_apply_rules : Node -> Node;
  backcompat_apply_rules : Node -> Node;
  (* bs4, requests *)
  BeautifulSoup : string -> Node;
  requests_get : string -> Result Response;
  (* urlparse(u).netloc and urljoin(base, u) *)
  urlparse_netloc : AttrValue -> Result string;
  urljoin : Url -> AttrValue -> Result string
}.

(* ===================================================================== *)
(** ** The parser *)
(* ===================================================================== *)

Section Parser.
Variable C : Collaborators.

(** [self.__url__], fixed before the parsing pass starts *)
Variable base_url : Url.

(** The result of [parse_props]: [(props, children)]. *)
Definition Scan : Type := Props * list Microformat.

(** Lines 115-119 and 245-249: merge what a child returned into the
    accumulators. *)
Definition merge (acc child : Scan) : Scan :=
  (fold_left (fun properties kv => dict_extend (fst kv) (snd kv) properties)
             (fst child) (fst acc),
   snd acc ++ snd child).

(** The loop [for child in el.find_all(True, recursive=False)] of
    [handle_microformat] and of [parse_props], over the contents of the
    element; text nodes are skipped. *)
Definition scan_children (parse_props : Node -> State -> Scan * State)
  : list Node -> Scan -> State -> Scan * State :=
  fix scan (contents : list Node) (acc : Scan) (st : State) {struct contents} :=
    match contents with
    | [] => (acc, st)
    | NText _ :: rest => scan rest acc st
    | (NTag _ _ _ as child) :: rest =>
        let '(found, st1) := parse_props child st in
        scan rest (merge acc found) st1
    end.

(** Lines 121-133: the implied properties. *)
Definition add_implied (el : Node) (properties : Props) : Props :=
  let properties :=
    if dict_mem "name" properties then properties
    else dict_set "name" (map PScalar (implied_name C el)) properties in
  let properties :=
    if dict_mem "photo" properties then properties
    else match implied_photo C el base_url with
         | Some x => dict_set "photo" (map PScalar x) properties
         | None => properties
         end in
  if dict_mem "url" properties then properties
  else match implied_url C el base_url with
       | Some x => dict_set "url" (map PScalar x) properties
       | None => properties
       end.

(** Lines 135-154: the dictionary [handle_microformat] returns. *)
Definition build_microformat (root_class_names : list string) (el : Node)
           (properties : Props) (children : list Microformat)
           (simple_value : option Scalar) : Microformat :=
  let is_area := String.eqb (el_name el) "area" in
  mkMicroformat root_class_names properties
    (if is_area then get_attr C el "shape" else None)
    (if is_area then get_attr C el "coords" else None)
    (match children with [] => None | _ :: _ => Some children end)
    simple_value.

(** [handle_microformat], over the function that scans a child: the
    incoming [_default_date] is overwritten with [None] (line 110), the
    children are scanned, and the date the scan leaves behind stays in
    [self._default_date] when the function returns. *)
Definition handle_microformat_with (parse_props : Node -> State -> Scan * State)
           (root_class_names : list string) (el : Node) (contents : list Node)
           (simple_value : option Scalar) (st : State) : Microformat * State :=
  let st := @None string in
  let '((properties, children), st) := scan_children parse_props contents ([], []) st in
  let properties := add_implied el properties in
  (build_microformat root_class_names el properties children simple_value, st).

(** The accumulator of a property loop: the properties, the value of the
    category once it is parsed ([p_value], [u_value], [dt_value] or
    [e_value]), the default date, and a count that is not in the source:
    how often the value was parsed, i.e. how often the branch
    [if p_value is None] was taken. *)
Definition LoopState : Type := Props * option Scalar * State * nat.

(** The body of one of the four property loops of [parse_props] (lines
    168-234).  [extract] parses the value of the category from the element
    and may update [_default_date]; [nested] is the call of
    [handle_microformat] with the value as [simple_value]. *)
Definition property_step (nested : Scalar -> State -> Microformat * State)
           (root_class_names : list string)
           (extract : State -> Scalar * State)
           (acc : LoopState) (prop_name : string) : LoopState :=
  let '(props, memo, st, n) := acc in
  let '(value, st, n) :=
    match memo with
    | None => let '(v, st') := extract st in (v, st', S n)
    | Some v => (v, st, n)
    end in
  let '(appended, st) :=
    match root_class_names with
    | _ :: _ => let '(m, st') := nested value st in (PRecord m, st')
    | [] => (PScalar value, st)
    end in
  (dict_append prop_name appended props, Some value, st, n).

(** [for prop_name in mf2_classes.text(classes): ...] and its three
    siblings. *)
Definition property_loop (nested : Scalar -> State -> Microformat * State)
           (root_class_names : list string)
           (extract : State -> Scalar * State)
           (names : list string) (props : Props) (st : State)
  : Props * State * nat :=
  let '(props, _, st, n) :=
    fold_left (property_step nested root_class_names extract)
              names (props, @None Scalar, st, 0) in
  (props, st, n).

(** The extractors as [parse_props] calls them. *)
Definition extract_text (el : Node) : State -> Scalar * State :=
  fun st => (SStr (Py.strip (property_text C el)), st).

Definition extract_url (el : Node) : State -> Scalar * State :=
  fun st => (SStr (property_url C el base_url), st).

(** Lines 208-212: the date found becomes the default date. *)
Definition extract_datetime (el : Node) : State -> Scalar * State :=
  fun st =>
    let '(dt_value, new_date) := property_datetime C el st in
    (SStr dt_value,
     match new_date with
     | Some d => if Py.truthy d then Some d else st
     | None => st
     end).

Definition extract_embedded (el : Node) : State -> Scalar * State :=
  fun st => (property_embedded C el, st).

(** [el.get("class", [])] *)
Definition el_classes (el : Node) : AttrValue := el_get_or el "class" (AList []).

(** [is_property_el] after the four loops: some loop ran its body. *)
Definition declares_property (classes : AttrValue) : bool :=
  match mf2_text C classes ++ mf2_url C classes ++
        mf2_datetime C classes ++ mf2_embedded C classes with
  | [] => false
  | _ :: _ => true
  end.

(** [parse_props], lines 156-251. *)
Fixpoint parse_props (el : Node) (st : State) {struct el} : Scan * State :=
  match el with
  | NText _ => (([], []), st)
  | NTag _ _ contents =>
      let handle_microformat := handle_microformat_with parse_props in
      let classes := el_classes el in
      let root_class_names := mf2_root C classes in
      let nested v := handle_microformat root_class_names el contents (Some v) in
      let '(props, st, _) :=
        property_loop nested root_class_names (extract_text el)
                      (mf2_text C classes) [] st in
      let '(props, st, _) :=
        property_loop nested root_class_names (extract_url el)
                      (mf2_url C classes) props st in
      let '(props, st, _) :=
        property_loop nested root_class_names (extract_datetime el)
                      (mf2_datetime C classes) props st in
      let '(props, st, _) :=
        property_loop nested root_class_names (extract_embedded el)
                      (mf2_embedded C classes) props st in
      let is_property_el := declares_property classes in
      let '(children, st) :=
        match root_class_names with
        | _ :: _ =>
            if is_property_el then ([], st)
            else let '(m, st') := handle_microformat root_class_names el contents None st in
                 ([m], st')
        | [] => ([], st)
        end in
      match root_class_names with
      | [] => scan_children parse_props contents (props, children) st
      | _ :: _ => ((props, children), st)
      end
  end.

(** [handle_microformat], lines 105-154. *)
Definition handle_microformat (root_class_names : list string) (el : Node)
           (simple_value : option Scalar) (st : State) : Microformat * State :=
  handle_microformat_with parse_props root_class_names el (el_contents el)
                          simple_value st.

(** Lines 296-306 of [parse_el]: the root classnames the top-level walk
    sees, with the workaround for a [class] that bs4 left unsplit on
    [<html>]. *)
Definition potential_microformats (el : Node) : list string :=
  let classes := el_classes el in
  let classes :=
    if String.eqb (el_name el) "html" && negb (isinstance_list classes)
    then py_split classes else classes in
  mf2_root C classes.

(** [parse_el], lines 293-315.  The argument [top_level] of the source is
    never read and is left out. *)
Fixpoint parse_el (el : Node) (ctx : list Microformat) (st : State) {struct el}
  : list Microformat * State :=
  match el with
  | NText _ => (ctx, st)
  | NTag _ _ contents =>
      match potential_microformats el with
      | (_ :: _) as found =>
          let '(result, st) := handle_microformat found el None st in
          (ctx ++ [result], st)
      | [] =>
          (fix each_child (cs : list Node) (ctx : list Microformat) (st : State) :=
             match cs with
             | [] => (ctx, st)
             | NText _ :: rest => each_child rest ctx st
             | (NTag _ _ _ as child) :: rest =>
                 let '(ctx, st) := parse_el child ctx st in
                 each_child rest ctx st
             end) contents ctx st
      end
  end.

(** Lines 273-274: the rel values other than "alternate", joined. *)
Definition other_rels (rel_attrs : AttrValue) : list string :=
  filter (fun r => negb (String.eqb r "alternate")) (py_iter rel_attrs).

(** Lines 269-291: the dictionary appended to the alternates.  The test
    [x is not ""] compares with the empty string. *)
Definition alternate_entry (el : Node) (rel_attrs : AttrValue) (url : string)
  : Alternate :=
  let x := Py.join " " (other_rels rel_attrs) in
  mkAlternate url
              (if Py.truthy x then Some x else None)
              (get_attr C el "media")
              (get_attr C el "hreflang")
              (get_attr C el "type").

(** [parse_rels], lines 253-291, on [self.__parsed__]. *)
Definition parse_rels (el : Node) (parsed : Parsed) : Result Parsed :=
  match get_attr C el "rel" with
  | None => Ok parsed
  | Some rel_attrs =>
      url <- urljoin C base_url (el_get_or el "href" (AStr "")) ;;
      if negb (py_in "alternate" rel_attrs) then
        Ok (mkParsed (items parsed)
                     (fold_left (fun value_lists rel_value =>
                                   dict_append rel_value url value_lists)
                                (py_iter rel_attrs) (rels parsed))
                     (alternates parsed))
      else
        let alternate_list :=
          match alternates parsed with Some l => l | None => [] end in
        Ok (mkParsed (items parsed) (rels parsed)
                     (Some (alternate_list ++ [alternate_entry el rel_attrs url])))
  end.

(** Lines 317-320: the top-level records of the document. *)
Definition top_level_items (doc : Node) : list Microformat :=
  fst (parse_el doc [] None).

(** [Parser.parse], lines 98-324. *)
Definition Parser_parse (doc : Node) (parsed : Parsed) : Result Parsed :=
  let ctx := top_level_items doc in
  let parsed := mkParsed ctx (rels parsed) (alternates parsed) in
  for_each parse_rels (find_all doc ["a"; "link"] "rel") parsed.

End Parser.

(** What [Parser(doc=...)] accepts besides [None]. *)
Inductive DocArg : Type :=
| DocSoup (soup : Node)        (* a BeautifulSoup document *)
| DocMarkup (text : string)    (* the text of the content *)
| DocFile (data : string).     (* a file handle, with what it reads *)

(** The fields of a [Parser] object that outlive [__init__]. *)
Record Parser : Type := mkParser {
  url__ : Url;
  doc__ : option Node;
  parsed__ : Parsed
}.

Section Driver.
Variable C : Collaborators.

(** Lines 62-65.  A [BeautifulSoup] object and a file handle are always
    true; a string is true when it is not empty. *)
Definition doc_of_arg (doc : option DocArg) : option Node :=
  match doc with
  | None => None
  | Some (DocSoup soup) => Some soup
  | Some (DocMarkup text) =>
      if Py.truthy text then Some (BeautifulSoup C text) else None
  | Some (DocFile data) => Some (BeautifulSoup C data)
  end.

(** Lines 67-77 *)
Definition fetch_if_needed (url : option string) (doc : option Node)
  : Result (Url * option Node) :=
  match url with
  | None => Ok (None, doc)
  | Some u =>
      if Py.truthy u then
        match doc with
        | Some _ => Ok (Some (AStr u), doc)
        | None =>
            data <- requests_get C u ;;
            let ctype := match content_type data with Some t => t | None => "" end in
            if Py.contains "charset" ctype
            then Ok (Some (AStr u), Some (BeautifulSoup C (resp_text data)))
            else Ok (Some (AStr u), Some (BeautifulSoup C (resp_content data)))
        end
      else Ok (None, doc)
  end.

(** Lines 79-90: the [<base>] tag. *)
Definition apply_base (url : Url) (doc : option Node) : Result Url :=
  match doc with
  | None => Ok url
  | Some d =>
      match find d "base" with
      | None => Ok url
      | Some poss_base =>
          match el_get poss_base "href" with
          | None => Ok url
          | Some poss_base_url =>
              if py_truthy poss_base_url then
                netloc <- urlparse_netloc C poss_base_url ;;
                if Py.truthy netloc then Ok (Some poss_base_url)
                else match url with
                     | Some u =>
                         if py_truthy u then
                           joined <- urljoin C url poss_base_url ;;
                           Ok (Some (AStr joined))
                         else Ok url
                     | None => Ok url
                     end
              else Ok url
          end
      end
  end.

(** [Parser.__init__], lines 57-96. *)
Definition Parser_init (doc : option DocArg) (url : option string) : Result Parser :=
  let parsed := mkParsed [] [] None in
  '(url__, doc__) <- fetch_if_needed url (doc_of_arg doc) ;;
  url__ <- apply_base url__ doc__ ;;
  match doc__ with
  | None => Ok (mkParser url__ None parsed)
  | Some d =>
      let d := backcompat_apply_rules C (temp_fixes_apply_rules C d) in
      parsed <- Parser_parse C url__ d parsed ;;
      Ok (mkParser url__ (Some d) parsed)
  end.

(** [Parser.to_dict], lines 326-339. *)
Definition Parser_to_dict (self : Parser) (filter_by_type : option string) : ToDict :=
  match filter_by_type with
  | None => FullDict (parsed__ self)
  | Some t =>
      ItemList (filter (fun x => existsb (String.eqb t) (mf_type x))
                       (items (parsed__ self)))
  end.

(** [parse], lines 24-37. *)
Definition parse (doc : option DocArg) (url : option string) : Result ToDict :=
  self <- Parser_init doc url ;;
  Ok (Parser_to_dict self None).

End Driver.

(* ===================================================================== *)
(** ** The parser when a helper raises *)
(* ===================================================================== *)

(** [parser.py] has no [try]: an exception raised by a function it calls
    leaves [parse].  [Failures] tells when a function of [parse_property],
    [implied_properties], [temp_fixes] or [backcompat] raises instead of
    returning; where it says [None] the function returns what
    [Collaborators] has for it. *)
Record Failures : Type := mkFailures {
  (* parse_property *)
  text_raises : Node -> option PyError;
  url_raises : Node -> Url -> option PyError;
  datetime_raises : Node -> State -> option PyError;
  embedded_raises : Node -> option PyError;
  (* implied_properties *)
  implied_name_raises : Node -> option PyError;
  implied_photo_raises : Node -> Url -> option PyError;
  implied_url_raises : Node -> Url -> option PyError;
  (* temp_fixes, backcompat *)
  temp_fixes_raises : Node -> option PyError;
  backcompat_raises : Node -> option PyError
}.

(** A call of a helper: the exception, or the value returned. *)
Definition call {A} (raised : option PyError) (returned : A) : Result A :=
  match raised with
  | Some e => Raise e
  | None => Ok returned
  end.

(** The functions of [parser.py] once more, with the exceptions of the
    helpers passed on and with the recursion limit of the interpreter:
    [frames] is the number of nested calls of [parse_el],
    [handle_microformat] and [parse_props] that the interpreter still
    allows; a call with none left raises [RecursionError].  The calls a
    helper makes inside are the helper's: when they exceed the limit the
    helper raises, which [Failures] covers. *)
Module Raising.
Section Parser.
Variable C : Collaborators.
Variable F : Failures.
Variable base_url : Url.

(** The loop [for child in el.find_all(True, recursive=False)]. *)
Definition scan_children (parse_props : Node -> State -> Result (Scan * State))
  : list Node -> Scan -> State -> Result (Scan * State) :=
  fix scan (contents : list Node) (acc : Scan) (st : State) {struct contents} :=
    match contents with
    | [] => Ok (acc, st)
    | NText _ :: rest => scan rest acc st
    | (NTag _ _ _ as child) :: rest =>
        ' (found, st1) <- parse_props child st ;;
        scan rest (merge acc found) st1
    end.

(** Lines 121-133 *)
Definition add_implied (el : Node) (properties : Props) : Result Props :=
  properties <-
    (if dict_mem "name" properties then Ok properties
     else x <- call (implied_name_raises F el) (implied_name C el) ;;
          Ok (dict_set "name" (map PScalar x) properties)) ;;
  properties <-
    (if dict_mem "photo" properties then Ok properties
     else x <- call (implied_photo_raises F el base_url) (implied_photo C el base_url) ;;
          Ok (match x with
              | Some x => dict_set "photo" (map PScalar x) properties
              | None => properties
              end)) ;;
  if dict_mem "url" properties then Ok properties
  else x <- call (implied_url_raises F el base_url) (implied_url C el base_url) ;;
       Ok (match x with
           | Some x => dict_set "url" (map PScalar x) properties
           | None => properties
           end).

(** [handle_microformat], lines 105-154, over the function that scans a
    child. *)
Definition handle_microformat_with
           (parse_props : Node -> State -> Result (Scan * State))
           (root_class_names : list string) (el : Node) (contents : list Node)
           (simple_value : option Scalar) (st : State) : Result (Microformat * State) :=
  let st := @None string in
  ' (found, st) <- scan_children parse_props contents ([], []) st ;;
  properties <- add_implied el (fst found) ;;
  Ok (build_microformat C root_class_names el properties (snd found) simple_value, st).

(** The body of a property loop, lines 168-234. *)
Definition property_step (nested : Scalar -> State -> Result (Microformat * State))
           (root_class_names : list string)
           (extract : State -> Result (Scalar * State))
           (prop_name : string) (acc : Props * option Scalar * State)
  : Result (Props * option Scalar * State) :=
  let '(props, memo, st) := acc in
  ' (value, st) <- match memo with
                   | None => extract st
                   | Some v => Ok (v, st)
                   end ;;
  ' (appended, st) <- match root_class_names with
                      | _ :: _ => ' (m, st') <- nested value st ;; Ok (PRecord m, st')
                      | [] => Ok (PScalar value, st)
                      end ;;
  Ok (dict_append prop_name appended props, Some value, st).

Definition property_loop (nested : Scalar -> State -> Result (Microformat * State))
           (root_class_names : list string)
           (extract : State -> Result (Scalar * State))
           (names : list string) (props : Props) (st : State) : Result (Props * State) :=
  ' (props, _, st) <- for_each (property_step nested root_class_names extract)
                               names (props, @None Scalar, st) ;;
  Ok (props, st).

(** The extractors as [parse_props] calls them. *)
Definition extract_text (el : Node) : State -> Result (Scalar * State) :=
  fun st =>
    v <- call (text_raises F el) (property_text C el) ;;
    Ok (SStr (Py.strip v), st).

Definition extract_url (el : Node) : State -> Result (Scalar * State) :=
  fun st =>
    v <- call (url_raises F el base_url) (property_url C el base_url) ;;
    Ok (SStr v, st).

Definition extract_datetime (el : Node) : State -> Result (Scalar * State) :=
  fun st =>
    ' (dt_value, new_date) <- call (datetime_raises F el st) (property_datetime C el st) ;;
    Ok (SStr dt_value,
        match new_date with
        | Some d => if Py.truthy d then Some d else st
        | None => st
        end).

Definition extract_embedded (el : Node) : State -> Result (Scalar * State) :=
  fun st =>
    v <- call (embedded_raises F el) (property_embedded C el) ;;
    Ok (v, st).

(** [parse_props], lines 156-251. *)
Fixpoint parse_props (el : Node) (frames : nat) (st : State) {struct el}
  : Result (Scan * State) :=
  match frames with
  | 0 => Raise RecursionError
  | S frames =>
      match el with
      | NText _ => Ok (([], []), st)
      | NTag _ _ contents =>
          let handle_microformat root_class_names simple_value st :=
            match frames with
            | 0 => Raise RecursionError
            | S deeper =>
                handle_microformat_with (fun child => parse_props child deeper)
                                        root_class_names el contents simple_value st
            end in
          let classes := el_classes el in
          let root_class_names := mf2_root C classes in
          let nested v := handle_microformat root_class_names (Some v) in
          ' (props, st) <-
            property_loop nested root_class_names (extract_text el)
                          (mf2_text C classes) [] st ;;
          ' (props, st) <-
            property_loop nested root_class_names (extract_url el)
                          (mf2_url C classes) props st ;;
          ' (props, st) <-
            property_loop nested root_class_names (extract_datetime el)
                          (mf2_datetime C classes) props st ;;
          ' (props, st) <-
            property_loop nested root_class_names (extract_embedded el)
                          (mf2_embedded C classes) props st ;;
          let is_property_el := declares_property C classes in
          ' (children, st) <-
            match root_class_names with
            | _ :: _ =>
                if is_property_el then Ok ([], st)
                else ' (m, st') <- handle_microformat root_class_names None st ;;
                     Ok ([m], st')
            | [] => Ok ([], st)
            end ;;
          match root_class_names with
          | [] => scan_children (fun child => parse_props child frames)
                                contents (props, children) st
          | _ :: _ => Ok ((props, children), st)
          end
      end
  end.

(** [handle_microformat], lines 105-154, called with [frames] calls left. *)
Definition handle_microformat (frames : nat) (root_class_names : list string)
           (el : Node) (simple_value : option Scalar) (st : State)
  : Result (Microformat * State) :=
  match frames with
  | 0 => Raise RecursionError
  | S deeper =>
      handle_microformat_with (fun child => parse_props child deeper)
                              root_class_names el (el_contents el) simple_value st
  end.

(** [parse_props] on a tag when [frames + 1] calls are left, with the calls
    of [handle_microformat] folded back. *)
Definition parse_props_body (el : Node) (frames : nat) (st : State)
  : Result (Scan * State) :=
  let classes := el_classes el in
  let root_class_names := mf2_root C classes in
  let nested v := handle_microformat frames root_class_names el (Some v) in
  ' (props, st) <-
    property_loop nested root_class_names (extract_text el)
                  (mf2_text C classes) [] st ;;
  ' (props, st) <-
    property_loop nested root_class_names (extract_url el)
                  (mf2_url C classes) props st ;;
  ' (props, st) <-
    property_loop nested root_class_names (extract_datetime el)
                  (mf2_datetime C classes) props st ;;
  ' (props, st) <-
    property_loop nested root_class_names (extract_embedded el)
                  (mf2_embedded C classes) props st ;;
  ' (children, st) <-
    match root_class_names with
    | _ :: _ =>
        if declares_property C classes then Ok ([], st)
        else ' (m, st') <- handle_microformat frames root_class_names el None st ;;
             Ok ([m], st')
    | [] => Ok ([], st)
    end ;;
  match root_class_names with
  | [] => scan_children (fun child => parse_props child frames)
                        (el_contents el) (props, children) st
  | _ :: _ => Ok ((props, children), st)
  end.

(** [parse_el], lines 293-315. *)
Fixpoint parse_el (el : Node) (frames : nat) (ctx : list Microformat) (st : State)
         {struct el} : Result (list Microformat * State) :=
  match frames with
  | 0 => Raise RecursionError
  | S frames =>
      match el with
      | NText _ => Ok (ctx, st)
      | NTag _ _ contents =>
          match potential_microformats C el with
          | (_ :: _) as found =>
              ' (result, st) <- handle_microformat frames found el None st ;;
              Ok (ctx ++ [result], st)
          | [] =>
              (fix each_child (cs : list Node) (ctx : list Microformat) (st : State) :=
                 match cs with
                 | [] => Ok (ctx, st)
                 | NText _ :: rest => each_child rest ctx st
                 | (NTag _ _ _ as child) :: rest =>
                     ' (ctx, st) <- parse_el child frames ctx st ;;
                     each_child rest ctx st
                 end) contents ctx st
          end
      end
  end.

(** [Parser.parse], lines 98-324: the items, then the rel pass. *)
Definition Parser_parse (frames : nat) (doc : Node) (parsed : Parsed) : Result Parsed :=
  ' (ctx, _) <- parse_el doc frames [] None ;;
  let parsed := mkParsed ctx (rels parsed) (alternates parsed) in
  for_each (parse_rels C base_url) (find_all doc ["a"; "link"] "rel") parsed.
End Parser.

Section Driver.
Variable C : Collaborators.
Variable F : Failures.

(** [Parser.__init__], lines 57-96. *)
Definition Parser_init (frames : nat) (doc : option DocArg) (url : option string)
  : Result Parser :=
  let parsed := mkParsed [] [] None in
  ' (url__, doc__) <- fetch_if_needed C url (doc_of_arg C doc) ;;
  url__ <- apply_base C url__ doc__ ;;
  match doc__ with
  | None => Ok (mkParser url__ None parsed)
  | Some d =>
      d <- call (temp_fixes_raises F d) (temp_fixes_apply_rules C d) ;;
      d <- call (backcompat_raises F d) (backcompat_apply_rules C d) ;;
      parsed <- Parser_parse C F url__ frames d parsed ;;
      Ok (mkParser url__ (Some d) parsed)
  end.

(** [parse], lines 24-37. *)
Definition parse (frames : nat) (doc : option DocArg) (url : option string)
  : Result ToDict :=
  self <- Parser_init frames doc url ;;
  Ok (Parser_to_dict self None).
End Driver.
End Raising.

(* ===================================================================== *)
(** ** A reference set of collaborators *)
(* ===================================================================== *)

(** The modules [parser.py] imports are not part of the file under study.
    [Sample] is one set of them, used to run the parser on concrete
    documents. *)
Module Sample.
Local Open Scope string_scope.

(** Python 3's [urllib.parse.urlsplit], as far as [urlparse(u).netloc]
    needs it: the scheme is cut off at the first colon when only scheme
    characters precede it, a rest that starts with two slashes has its
    authority up to the next slash, question mark or hash, and an authority
    with one square bracket but not the other raises [ValueError]. *)
Definition is_scheme_char (c : ascii) : bool :=
  let n := nat_of_ascii c in
  (Nat.leb 97 n && Nat.leb n 122) || (Nat.leb 65 n && Nat.leb n 90) ||
  (Nat.leb 48 n && Nat.leb n 57) || Nat.eqb n 43 || Nat.eqb n 45 || Nat.eqb n 46.

(** [c.lower()] *)
Definition lower (c : ascii) : ascii :=
  let n := nat_of_ascii c in
  if Nat.leb 65 n && Nat.leb n 90 then ascii_of_nat (n + 32) else c.

(** [(url[:i].lower(), url[i+1:])] for the first colon at [i > 0] after
    scheme characters only *)
Fixpoint split_scheme_aux (s : string) (seen : list ascii) : option (string * string) :=
  match s with
  | EmptyString => None
  | String c s' =>
      if Ascii.eqb c ":" then
        match seen with
        | [] => None
        | _ :: _ => Some (string_of_list_ascii (map lower (rev seen)), s')
        end
      else if is_scheme_char c then split_scheme_aux s' (c :: seen)
      else None
  end.

Definition split_scheme (url : string) : option (string * string) :=
  split_scheme_aux url [].

Definition is_delim (c : ascii) : bool :=
  Ascii.eqb c "/" || Ascii.eqb c "?" || Ascii.eqb c "#".

(** [_splitnetloc]: the text before the first delimiter, and the rest *)
Fixpoint split_at_delim (s : string) : string * string :=
  match s with
  | EmptyString => (EmptyString, EmptyString)
  | String c s' =>
      if is_delim c then (EmptyString, s)
      else let '(a, b) := split_at_delim s' in (String c a, b)
  end.

Definition has_char (c : ascii) (s : string) : bool :=
  existsb (Ascii.eqb c) (list_ascii_of_string s).

(** [(scheme, netloc, rest)] or [ValueError] *)
Definition urlsplit (url : string) : Result (string * string * string) :=
  let '(scheme, rest) :=
    match split_scheme url with
    | Some (sch, rest) => (sch, rest)
    | None => ("", url)
    end in
  if String.prefix "//" rest then
    let '(netloc, path) := split_at_delim (substring 2 (String.length rest - 2) rest) in
    if (has_char "[" netloc && negb (has_char "]" netloc)) ||
       (has_char "]" netloc && negb (has_char "[" netloc))
    then Raise (ValueError "Invalid IPv6 URL")
    else Ok (scheme, netloc, path)
  else Ok (scheme, "", rest).

Definition urlparse_netloc (u : AttrValue) : Result string :=
  match u with
  | AStr s => '(_, netloc, _) <- urlsplit s ;; Ok netloc
  | AList _ => Raise (TypeError "not a string")
  end.

(** The directory of a path: up to and with its last slash *)
Fixpoint dirname (path : string) : string :=
  match path with
  | EmptyString => EmptyString
  | String c rest =>
      if has_char "/" rest then String c (dirname rest)
      else if Ascii.eqb c "/" then "/" else EmptyString
  end.

(** A path without its query and fragment *)
Fixpoint until_query (s : string) : string :=
  match s with
  | EmptyString => EmptyString
  | String c s' =>
      if Ascii.eqb c "?" || Ascii.eqb c "#" then EmptyString
      else String c (until_query s')
  end.

(** [urljoin] for the references the examples use: an empty base or
    reference returns the other one, both are split first (which can
    raise), a reference with a scheme is returned as it is, and a reference
    that starts with a slash, or with none, is put after the authority, or
    the directory, of the base.  Dot segments, queries and fragments are
    not normalised. *)
Definition urljoin (base : Url) (u : AttrValue) : Result string :=
  match u with
  | AList _ => Raise (TypeError "not a string")
  | AStr url =>
      match base with
      | None => Ok url
      | Some (AList _) => Raise (TypeError "not a string")
      | Some (AStr b) =>
          if negb (Py.truthy b) then Ok url
          else if negb (Py.truthy url) then Ok b
          else
            '(bscheme, bnetloc, bpath) <- urlsplit b ;;
            '(scheme, netloc, path) <- urlsplit url ;;
            if Py.truthy scheme then Ok url
            else if Py.truthy netloc then Ok (bscheme ++ ":" ++ url)
            else
              let root := bscheme ++ "://" ++ bnetloc in
              if String.prefix "/" path then Ok (root ++ path)
              else
                let dir := dirname (until_query bpath) in
                Ok (root ++ (if Py.truthy dir then dir else "/") ++ path)
      end
  end.

(** The collaborators' resolver never raises: a reference the URL
    library rejects is kept as it stands. *)
Definition resolve (base : Url) (ref : string) : string :=
  match urljoin base (AStr ref) with
  | Ok u => u
  | Raise _ => ref
  end.

(** Modelled from the spec: [mf2_classes] is missing from the sources; a
    category is recognised by the prefix of the class token, and a
    property name is the token without it (section 4.1 and the examples of
    section 8). *)
Definition with_prefix (pfx : string) (classes : AttrValue) : list string :=
  filter (String.prefix pfx) (py_iter classes).

Definition drop_prefix (pfx : string) (token : string) : string :=
  substring (String.length pfx) (String.length token - String.length pfx) token.

Definition root (classes : AttrValue) : list string := with_prefix "h-" classes.
Definition text (classes : AttrValue) : list string :=
  map (drop_prefix "p-") (with_prefix "p-" classes).
Definition url (classes : AttrValue) : list string :=
  map (drop_prefix "u-") (with_prefix "u-" classes).
Definition datetime (classes : AttrValue) : list string :=
  map (drop_prefix "dt-") (with_prefix "dt-" classes).
Definition embedded (classes : AttrValue) : list string :=
  map (drop_prefix "e-") (with_prefix "e-" classes).

(** [el.get_text()] *)
Fixpoint get_text (n : Node) : string :=
  match n with
  | NText s => s
  | NTag _ _ contents => String.concat "" (map get_text contents)
  end.

Definition attr_string (v : AttrValue) : string :=
  match v with AStr s => s | AList l => Py.join " " l end.

Definition quote : string := String (ascii_of_nat 34) EmptyString.

(** The markup of a node *)
Fixpoint to_html (n : Node) : string :=
  match n with
  | NText s => s
  | NTag name attrs contents =>
      "<" ++ name ++
      String.concat "" (map (fun kv => " " ++ fst kv ++ "=" ++ quote ++
                                       attr_string (snd kv) ++ quote) attrs) ++
      ">" ++ String.concat "" (map to_html contents) ++ "</" ++ name ++ ">"
  end.

Definition attr_of (el : Node) (k : string) : option string :=
  match el_get el k with Some v => Some (attr_string v) | None => None end.

(** Modelled from the spec: [parse_property] is missing from the sources
    (section 4.2).  Plaintext is the text content; a URL is the [href] or
    [src], else the text, resolved against the base. *)
Definition property_text (el : Node) : string := get_text el.

Definition property_url (el : Node) (base : Url) : string :=
  match attr_of el "href" with
  | Some h => resolve base h
  | None =>
      match attr_of el "src" with
      | Some h => resolve base h
      | None => resolve base (Py.strip (get_text el))
      end
  end.

(** A token that starts with a full date, [YYYY-MM-DD] *)
Definition has_date (v : string) : bool :=
  Nat.leb 10 (String.length v) &&
  match get 4 v, get 7 v with
  | Some a, Some b => Ascii.eqb a "-" && Ascii.eqb b "-"
  | _, _ => false
  end.

(** Modelled from the spec: the datetime extractor of section 4.2.  The
    token is the [datetime] attribute or the text.  A token with a full
    date is returned with its date; a time alone is combined with the
    default date when there is one, and no date is returned. *)
Definition property_datetime (el : Node) (default_date : State)
  : string * option string :=
  let token := Py.strip (match attr_of el "datetime" with
                         | Some d => d
                         | None => get_text el
                         end) in
  if has_date token then (token, Some (substring 0 10 token))
  else
    match default_date with
    | Some d => if Py.contains ":" token
                then (d ++ " " ++ token, None) else (token, None)
    | None => (token, None)
    end.

(** Modelled from the spec: the embedded extractor of section 4.2, the
    inner markup and the plain text. *)
Definition property_embedded (el : Node) : Scalar :=
  SDict [("html", String.concat "" (map to_html (el_contents el)));
         ("value", Py.strip (get_text el))].

(** Modelled from the spec: [implied_properties] is missing from the
    sources (section 4.3).  The name is the [alt] or [title] of the
    element, else its trimmed text; the photo is the [src] of an [img],
    which can be the only child; the url is the [href] of an [a], which
    can be the only child. *)
Definition implied_name (el : Node) : list Scalar :=
  match attr_of el "alt" with
  | Some a => [SStr a]
  | None =>
      match attr_of el "title" with
      | Some t => [SStr t]
      | None => [SStr (Py.strip (get_text el))]
      end
  end.

Definition attr_of_tag (tag attr : string) (el : Node) : option string :=
  if String.eqb (el_name el) tag then attr_of el attr else None.

Definition self_or_only_child (tag attr : string) (el : Node) : option string :=
  match attr_of_tag tag attr el with
  | Some v => Some v
  | None =>
      match child_tags el with
      | [c] => attr_of_tag tag attr c
      | _ => None
      end
  end.

Definition implied_photo (el : Node) (base : Url) : option (list Scalar) :=
  match self_or_only_child "img" "src" el with
  | Some v => Some [SStr (resolve base v)]
  | None => None
  end.

Definition implied_url (el : Node) (base : Url) : option (list Scalar) :=
  match self_or_only_child "a" "href" el with
  | Some v => Some [SStr (resolve base v)]
  | None => None
  end.

(** Modelled from the spec: [dom_helpers.get_attr] is missing from the
    sources; it is the attribute lookup of section 6. *)
Definition get_attr (el : Node) (k : string) : option AttrValue := el_get el k.

(** Markup is not parsed here: a text is a document with one text node. *)
Definition BeautifulSoup (markup : string) : Node :=
  NTag "[document]" [] [NText markup].

(** No network. *)
Definition requests_get (u : string) : Result Response :=
  Raise (RequestException "unreachable").

(** The collaborators together; [temp_fixes] and [backcompat] have no rule
    to apply. *)
Definition collaborators : Collaborators :=
  mkCollaborators
    root text url datetime embedded
    property_text property_url property_datetime property_embedded
    implied_name implied_photo implied_url
    get_attr
    (fun d => d) (fun d => d)
    BeautifulSoup requests_get
    urlparse_netloc urljoin.

(** Helpers that always return. *)
Definition no_failures : Failures :=
  mkFailures (fun _ => None) (fun _ _ => None) (fun _ _ => None) (fun _ => None)
             (fun _ => None) (fun _ _ => None) (fun _ _ => None)
             (fun _ => None) (fun _ => None).

(** What [urljoin] raises on a reference, if it raises. *)
Definition rejected (base : Url) (ref : option string) : option PyError :=
  match ref with
  | Some r => match urljoin base (AStr r) with
              | Ok _ => None
              | Raise e => Some e
              end
  | None => None
  end.

(** Helpers that pass on what [urljoin] raises: the URL extractor on the
    reference it resolves, the [href], the [src] or the text of the element,
    the implied photo and the implied url on the attribute they resolve.
    The other helpers return. *)
Definition failures : Failures :=
  mkFailures
    (fun _ => None)
    (fun el base => rejected base (Some match attr_of el "href" with
                                        | Some h => h
                                        | None =>
                                            match attr_of el "src" with
                                            | Some h => h
                                            | None => Py.strip (get_text el)
                                            end
                                        end))
    (fun _ _ => None)
    (fun _ => None)
    (fun _ => None)
    (fun el base => rejected base (self_or_only_child "img" "src" el))
    (fun el base => rejected base (self_or_only_child "a" "href" el))
    (fun _ => None)
    (fun _ => None).

(** Building documents *)
Definition tag (name : string) (class : list string) (contents : list Node) : Node :=
  NTag name [("class", AList class)] contents.

Definition document (contents : list Node) : Node :=
  NTag "[document]" [] contents.

End Sample.

(* ===================================================================== *)
(** ** Specification-side definitions *)
(* ===================================================================== *)

Section Specification.
Variable C : Collaborators.
Variable base_url : Url.

(** An element the top-level walk identifies as a root. *)
Definition carries_root (el : Node) : bool :=
  match potential_microformats C el with [] => false | _ :: _ => true end.

(** Specification: the maximal root-classname elements, found depth-first
    from [el] without descending past an element identified as a root. *)
Fixpoint spec_maximal_roots (el : Node) : list Node :=
  match el with
  | NText _ => []
  | NTag _ _ contents =>
      if carries_root el then [el] else flat_map spec_maximal_roots contents
  end.

(** The top-level record of a root element. *)
Definition record_of (el : Node) : Microformat :=
  fst (handle_microformat C base_url (potential_microformats C el) el None None).

(** The property names an element declares, category by category. *)
Definition declared_names (el : Node) : list string :=
  let classes := el_classes el in
  mf2_text C classes ++ mf2_url C classes ++
  mf2_datetime C classes ++ mf2_embedded C classes.

(** What the scan of the direct children of a record found, before the
    implied properties are added. *)
Definition scanned_properties (el : Node) : Props :=
  fst (fst (scan_children (parse_props C base_url) (el_contents el) ([], []) None)).
End Specification.

(** A property list with at least one value, every nested record again well
    formed. *)
Fixpoint mf_ok (m : Microformat) : bool :=
  match m with
  | mkMicroformat _ properties _ _ children _ =>
      forallb (fun kv =>
                 match snd kv with [] => false | _ :: _ => true end &&
                 forallb (fun v => match v with
                                   | PScalar _ => true
                                   | PRecord r => mf_ok r
                                   end) (snd kv)) properties &&
      match children with
      | None => true
      | Some l => forallb mf_ok l
      end
  end.

Definition value_ok (v : PropertyValue) : bool :=
  match v with PScalar _ => true | PRecord r => mf_ok r end.

Definition entry_ok (kv : string * list PropertyValue) : bool :=
  match snd kv with [] => false | _ :: _ => true end && forallb value_ok (snd kv).

Definition props_ok (d : Props) : bool := forallb entry_ok d.

(** [self.__url__] after lines 67-68 *)
Definition initial_url (url : option string) : Url :=
  match url with
  | Some u => if Py.truthy u then Some (AStr u) else None
  | None => None
  end.

(** The [href] of the first [<base>] tag, when it is not empty. *)
Definition base_href (d : Node) : option AttrValue :=
  match find d "base" with
  | Some poss_base =>
      match el_get poss_base "href" with
      | Some v => if py_truthy v then Some v else None
      | None => None
      end
  | None => None
  end.


(* ===================================================================== *)
(** ** Definitions used to state the properties *)
(* ===================================================================== *)

(** The value a property loop appends for the parsed value [v]: the value
    itself, or the nested record built around it. *)
Definition appended_value (nested : Scalar -> State -> Microformat * State)
           (root_class_names : list string) (v : Scalar) : PropertyValue :=
  match root_class_names with
  | [] => PScalar v
  | _ :: _ => PRecord (fst (nested v None))
  end.

(** The default date after one iteration that found [v] already parsed. *)
Definition date_after (nested : Scalar -> State -> Microformat * State)
           (root_class_names : list string) (v : Scalar) (st : State) : State :=
  match root_class_names with
  | [] => st
  | _ :: _ => snd (nested v None)
  end.

(** [V] appended under each of [names], in order. *)
Definition append_all (V : PropertyValue) (names : list string) (props : Props) : Props :=
  fold_left (fun acc name => dict_append name V acc) names props.

(** The number of values of a properties dictionary, over all keys. *)
Definition count_values (props : Props) : nat := length (concat (map snd props)).

(** Every key of [props] is one of [allowed] and every value satisfies [Q]. *)
Definition props_within (allowed : list string) (Q : PropertyValue -> Prop)
           (props : Props) : Prop :=
  forall k vs, In (k, vs) props -> In k allowed /\ Forall Q vs.

(** A scan result whose property lists are not empty and whose records,
    nested or children, are well formed. *)
Definition scan_ok (s : Props * list Microformat) : Prop :=
  props_ok (fst s) = true /\ forallb mf_ok (snd s) = true.

(** One step of lines 121-133: [k] is set to the implied value, if there is
    one, when [k] is not a key yet. *)
Definition set_if_absent (k : string) (x : option (list PropertyValue))
           (props : Props) : Props :=
  if dict_mem k props then props
  else match x with
       | Some l => dict_set k l props
       | None => props
       end.


Section Unfolded.
Variable C : Collaborators.
Variable base_url : Url.

(** [parse_props] on a tag, with the calls of [handle_microformat] folded
    back. *)
Definition parse_props_body (el : Node) (st : State) : Scan * State :=
  let classes := el_classes el in
  let root_class_names := mf2_root C classes in
  let nested v := handle_microformat C base_url root_class_names el (Some v) in
  let '(props, st, _) :=
    property_loop nested root_class_names (extract_text C el)
                  (mf2_text C classes) [] st in
  let '(props, st, _) :=
    property_loop nested root_class_names (extract_url C base_url el)
                  (mf2_url C classes) props st in
  let '(props, st, _) :=
    property_loop nested root_class_names (extract_datetime C el)
                  (mf2_datetime C classes) props st in
  let '(props, st, _) :=
    property_loop nested root_class_names (extract_embedded C el)
                  (mf2_embedded C classes) props st in
  let '(children, st) :=
    match root_class_names with
    | _ :: _ =>
        if declares_property C classes then ([], st)
        else let '(m, st') := handle_microformat C base_url root_class_names el None st in
             ([m], st')
    | [] => ([], st)
    end in
  match root_class_names with
  | [] => scan_children (parse_props C base_url) (el_contents el) (props, children) st
  | _ :: _ => ((props, children), st)
  end.

(** A nested record built from [el] with some simple value. *)
Definition nested_record_of (el : Node) (v : PropertyValue) : Prop :=
  exists sv,
    v = PRecord (fst (handle_microformat C base_url (mf2_root C (el_classes el))
                                         el (Some sv) None)).

(** The default date that the scan of the children of [el] leaves behind
    when it starts from none. *)
Definition date_left_by (el : Node) : State :=
  snd (scan_children (parse_props C base_url) (el_contents el) ([], []) None).
End Unfolded.

(* ===================================================================== *)
(** ** Definitions used to state further properties *)
(* ===================================================================== *)

(** [check as_value m] holds of a record and of every record inside it,
    with [as_value = true] for a record that is the value of a property and
    [as_value = false] for a child record. *)
Fixpoint mf_all (check : bool -> Microformat -> bool) (as_value : bool)
         (m : Microformat) {struct m} : bool :=
  check as_value m &&
  match m with
  | mkMicroformat _ properties _ _ children _ =>
      forallb (fun kv =>
                 forallb (fun v => match v with
                                   | PScalar _ => true
                                   | PRecord r => mf_all check true r
                                   end) (snd kv)) properties &&
      match children with
      | None => true
      | Some l => forallb (mf_all check false) l
      end
  end.

Definition value_all (check : bool -> Microformat -> bool) (v : PropertyValue) : bool :=
  match v with PScalar _ => true | PRecord r => mf_all check true r end.

Definition props_all (check : bool -> Microformat -> bool) (props : Props) : bool :=
  forallb (fun kv => forallb (value_all check) (snd kv)) props.

Definition scan_all (check : bool -> Microformat -> bool)
           (s : Props * list Microformat) : Prop :=
  props_all check (fst s) = true /\ forallb (mf_all check false) (snd s) = true.

Definition is_some {A} (o : option A) : bool :=
  match o with Some _ => true | None => false end.

(** The record has a type. *)
Definition has_type (as_value : bool) (m : Microformat) : bool :=
  match mf_type m with [] => false | _ :: _ => true end.

(** The record has a [value] exactly when it is the value of a property. *)
Definition value_iff_property (as_value : bool) (m : Microformat) : bool :=
  Bool.eqb (is_some (mf_value m)) as_value.

(** The [children] key, when present, holds a record. *)
Definition children_not_empty (as_value : bool) (m : Microformat) : bool :=
  match mf_children m with Some [] => false | _ => true end.

(** An element below which no element has root classnames or declares a
    datetime property. *)
Fixpoint date_neutral (C : Collaborators) (el : Node) : bool :=
  match el with
  | NText _ => true
  | NTag _ _ contents =>
      match mf2_root C (el_classes el), mf2_datetime C (el_classes el) with
      | [], [] => forallb (date_neutral C) contents
      | _, _ => false
      end
  end.

(** What one element of the rel pass adds to [rels[token]]. *)
Definition rel_urls (C : Collaborators) (base_url : Url) (token : string)
           (el : Node) : list string :=
  match get_attr C el "rel" with
  | None => []
  | Some rel_attrs =>
      if py_in "alternate" rel_attrs then []
      else match urljoin C base_url (el_get_or el "href" (AStr "")) with
           | Ok u => repeat u (count_occ string_dec (py_iter rel_attrs) token)
           | Raise _ => []
           end
  end.

(** What one element of the rel pass adds to the alternates. *)
Definition alt_entries (C : Collaborators) (base_url : Url) (el : Node)
  : list Alternate :=
  match get_attr C el "rel" with
  | None => []
  | Some rel_attrs =>
      if py_in "alternate" rel_attrs then
        match urljoin C base_url (el_get_or el "href" (AStr "")) with
        | Ok u => [alternate_entry C el rel_attrs u]
        | Raise _ => []
        end
      else []
  end.

(** [__parsed__.get("alternates", [])] *)
Definition alternates_or_nil (p : Parsed) : list Alternate :=
  match alternates p with Some l => l | None => [] end.

(** No rel token with an empty list of URLs, and no empty list of
    alternates. *)
Definition rels_well_formed (p : Parsed) : Prop :=
  (forall k vs, In (k, vs) (rels p) -> vs <> []) /\ alternates p <> Some [].

(** The same collaborators with another [requests.get]. *)
Definition with_requests_get (C : Collaborators)
           (get : string -> Result Response) : Collaborators :=
  mkCollaborators
    (mf2_root C) (mf2_text C) (mf2_url C) (mf2_datetime C) (mf2_embedded C)
    (property_text C) (property_url C) (property_datetime C) (property_embedded C)
    (implied_name C) (implied_photo C) (implied_url C)
    (get_attr C)
    (temp_fixes_apply_rules C) (backcompat_apply_rules C)
    (BeautifulSoup C) get
    (urlparse_netloc C) (urljoin C).

(** The body of the response that [__init__] parses (lines 74-77). *)
Definition fetched_body (data : Response) : string :=
  let ctype := match content_type data with Some t => t | None => "" end in
  if Py.contains "charset" ctype then resp_text data else resp_content data.

(** What [parse_props] returned for each child tag, in document order, the
    default date handed from one child to the next. *)
Fixpoint scan_results (parse_props : Node -> State -> (Props * list Microformat) * State)
         (contents : list Node) (st : State) : list (Props * list Microformat) :=
  match contents with
  | [] => []
  | NText _ :: rest => scan_results parse_props rest st
  | (NTag _ _ _ as child) :: rest =>
      let '(found, st1) := parse_props child st in
      found :: scan_results parse_props rest st1
  end.

(** [Parser.to_json], lines 341-358, over [json.dumps]; [indent] tells
    whether it is called with [indent=4] and the two separators. *)
Definition Parser_to_json (dumps : bool -> ToDict -> string) (self : Parser)
           (pretty_print : bool) (filter_by_type : option string) : string :=
  if pretty_print then dumps true (Parser_to_dict self filter_by_type)
  else dumps false (Parser_to_dict self filter_by_type).

(** The four categories of property classnames. *)
Inductive Category : Type :=
| Plaintext
| UrlValued
| Datetime
| Embedded.

Definition categories : list Category := [Plaintext; UrlValued; Datetime; Embedded].

Section Categories.
Variable C : Collaborators.
Variable base_url : Url.

(** [mf2_classes.text(classes)] and its three siblings: the names of the
    loops of [parse_props], lines 168, 184, 200 and 220. *)
Definition category_names (cat : Category) (classes : AttrValue) : list string :=
  match cat with
  | Plaintext => mf2_text C classes
  | UrlValued => mf2_url C classes
  | Datetime => mf2_datetime C classes
  | Embedded => mf2_embedded C classes
  end.

(** The extractor of the loop of a category. *)
Definition category_extract (cat : Category) (el : Node) : State -> Scalar * State :=
  match cat with
  | Plaintext => extract_text C el
  | UrlValued => extract_url C base_url el
  | Datetime => extract_datetime C el
  | Embedded => extract_embedded C el
  end.

(** The default date when the datetime loop of [el] starts: the one
    [parse_props] was entered with, unless the element has root classnames
    and a loop before has built a nested record of it. *)
Definition date_at_datetime (el : Node) (st : State) : State :=
  match mf2_root C (el_classes el),
        mf2_text C (el_classes el) ++ mf2_url C (el_classes el) with
  | _ :: _, _ :: _ => date_left_by C base_url el
  | _, _ => st
  end.

(** The value of a category of [el]: the parsed scalar, or the nested
    record of [el] built around it. *)
Definition category_value (el : Node) (st : State) (cat : Category) : PropertyValue :=
  let root_class_names := mf2_root C (el_classes el) in
  appended_value
    (fun v => handle_microformat C base_url root_class_names el (Some v))
    root_class_names
    (fst (category_extract cat el (date_at_datetime el st))).

(** What the elements below [el] hand up under the name [k]: nothing below
    an element with root classnames (lines 241-249). *)
Definition values_below (el : Node) (st : State) (k : string) : list PropertyValue :=
  match mf2_root C (el_classes el) with
  | [] =>
      concat (map (fun r => dict_get_or k [] (fst r))
                  (scan_results (parse_props C base_url) (el_contents el)
                     match mf2_datetime C (el_classes el) with
                     | [] => st
                     | _ :: _ => snd (extract_datetime C el st)
                     end))
  | _ :: _ => []
  end.

(** The four loops of [parse_props] on a tag (lines 168-234) with their
    counts kept: how often each category was parsed. *)
Definition parse_props_counted (el : Node) (st : State)
  : Props * State * (nat * nat * nat * nat) :=
  let classes := el_classes el in
  let root_class_names := mf2_root C classes in
  let nested v := handle_microformat C base_url root_class_names el (Some v) in
  let '(props, st, p_count) :=
    property_loop nested root_class_names (extract_text C el)
                  (mf2_text C classes) [] st in
  let '(props, st, u_count) :=
    property_loop nested root_class_names (extract_url C base_url el)
                  (mf2_url C classes) props st in
  let '(props, st, dt_count) :=
    property_loop nested root_class_names (extract_datetime C el)
                  (mf2_datetime C classes) props st in
  let '(props, st, e_count) :=
    property_loop nested root_class_names (extract_embedded C el)
                  (mf2_embedded C classes) props st in
  (props, st, (p_count, u_count, dt_count, e_count)).

(** What [parse_props] does after the four loops (lines 236-251), from the
    properties and the default date they left. *)
Definition after_loops (el : Node) (props : Props) (st : State) : Scan * State :=
  let classes := el_classes el in
  let root_class_names := mf2_root C classes in
  let '(children, st) :=
    match root_class_names with
    | _ :: _ =>
        if declares_property C classes then ([], st)
        else let '(m, st') := handle_microformat C base_url root_class_names el None st in
             ([m], st')
    | [] => ([], st)
    end in
  match root_class_names with
  | [] => scan_children (parse_props C base_url) (el_contents el) (props, children) st
  | _ :: _ => ((props, children), st)
  end.
End Categories.




(** [n] tags [<div>] one inside the other. *)
Fixpoint nest (n : nat) : Node :=
  match n with
  | 0 => NTag "div" [] []
  | S n' => NTag "div" [] [nest n']
  end.

(** 0 for no name, 1 otherwise. *)
Definition once (names : list string) : nat :=
  match names with [] => 0 | _ :: _ => 1 end.

(* ===================================================================== *)
(** ** Example documents *)
(* ===================================================================== *)

Module Examples.
Import Sample.

(** [<div class="h-card"><span class="p-name p-given-name">Jo</span></div>] *)
Definition card : Node :=
  document [tag "div" ["h-card"] [tag "span" ["p-name"; "p-given-name"] [NText "Jo"]]].

(** [<span class="p-name p-given-name"> Jo </span>] *)
Definition jo_span : Node := tag "span" ["p-name"; "p-given-name"] [NText " Jo "].

(** [<span class="p-author h-card">Jane</span>] *)
Definition author_span : Node := tag "span" ["p-author"; "h-card"] [NText "Jane"].

(** [<span class="p-author p-contributor h-card">Jane</span>] *)
Definition author_card : Node :=
  tag "span" ["p-author"; "p-contributor"; "h-card"] [NText "Jane"].

(** [<div class="h-entry"><span class="p-author h-card">Jane</span></div>] *)
Definition entry : Node := document [tag "div" ["h-entry"] [author_span]].

(** [<a rel="alternate" type="application/rss+xml" href="/feed">] *)
Definition feed_link : Node :=
  NTag "a" [("rel", AList ["alternate"]); ("type", AStr "application/rss+xml");
            ("href", AStr "/feed")] [].

Definition feed : Node := document [feed_link].

(** [<a rel="me author me" href="/about">] *)
Definition me_link : Node :=
  NTag "a" [("rel", AList ["me"; "author"; "me"]); ("href", AStr "/about")] [].

(** [<span class="p-location h-card">Room</span>] *)
Definition location_card : Node :=
  tag "span" ["p-location"; "h-card"] [NText "Room"].

(** [<div class="p-organizer h-card">
     <time class="dt-bday">1990-05-05 08:00</time></div>] *)
Definition organizer_card : Node :=
  tag "div" ["p-organizer"; "h-card"]
      [tag "time" ["dt-bday"] [NText "1990-05-05 08:00"]].

(** [<div class="h-event"><time class="dt-start">2020-01-01 09:00</time>
     <span class="p-location h-card">Room</span>
     <time class="dt-end">10:00</time></div>] *)
Definition event_with_nested_card : Node :=
  tag "div" ["h-event"]
      [tag "time" ["dt-start"] [NText "2020-01-01 09:00"];
       location_card;
       tag "time" ["dt-end"] [NText "10:00"]].

(** [<div class="h-event"><div class="p-organizer h-card">
     <time class="dt-bday">1990-05-05 08:00</time></div>
     <time class="dt-start">10:00</time></div>] *)
Definition event_after_nested_date : Node :=
  tag "div" ["h-event"]
      [organizer_card;
       tag "time" ["dt-start"] [NText "10:00"]].

(** [<a rel="me" href="/a"></a><link rel="alternate me" href="/feed">
     <a rel="me author" href="/b"></a>] *)
Definition three_links : Node :=
  document [NTag "a" [("rel", AList ["me"]); ("href", AStr "/a")] [];
            NTag "link" [("rel", AList ["alternate"; "me"]); ("href", AStr "/feed")] [];
            NTag "a" [("rel", AList ["me"; "author"]); ("href", AStr "/b")] []].

(** [<div class="h-feed"><div class="h-entry">a</div><div class="u-x h-card">b</div></div>
     <div class="h-card">c</div>] *)
Definition feed_and_card : Node :=
  document [tag "div" ["h-feed"]
              [tag "div" ["h-entry"] [NText "a"];
               tag "div" ["u-x"; "h-card"] [NText "b"]];
            tag "div" ["h-card"] [NText "c"]].

(** [<base href="http://example.org/dir/"><a rel="me" href="x">] *)
Definition absolute_base : Node :=
  document [NTag "base" [("href", AStr "http://example.org/dir/")] [];
            NTag "a" [("rel", AList ["me"]); ("href", AStr "x")] []].

(** [<base href="/dir/"><a rel="me" href="x">] *)
Definition relative_base : Node :=
  document [NTag "base" [("href", AStr "/dir/")] [];
            NTag "a" [("rel", AList ["me"]); ("href", AStr "x")] []].

(** [<time class="dt-start dt-published">2020-01-01 09:00</time>] *)
Definition start_time : Node :=
  tag "time" ["dt-start"; "dt-published"] [NText "2020-01-01 09:00"].

(** [<div class="h-card"><a class="u-url" href="http://[">x</a></div>] *)
Definition bad_url_card : Node :=
  document [tag "div" ["h-card"]
              [NTag "a" [("class", AList ["u-url"]); ("href", AStr "http://[")]
                    [NText "x"]]].

(** [<a rel="me" href="/a"></a><a rel="me" href="http://["></a>
     <a rel="me" href="/b"></a>] *)
Definition links_with_bad_href : Node :=
  document [NTag "a" [("rel", AList ["me"]); ("href", AStr "/a")] [];
            NTag "a" [("rel", AList ["me"]); ("href", AStr "http://[")] [];
            NTag "a" [("rel", AList ["me"]); ("href", AStr "/b")] []].

(** [<base href="http://[">] *)
Definition bad_base : Node :=
  document [NTag "base" [("href", AStr "http://[")] []].

(** [<a rel="me" href="http://[">] *)
Definition bad_link : Node :=
  document [NTag "a" [("rel", AList ["me"]); ("href", AStr "http://[")] []].
End Examples.

(* ===================================================================== *)
(** ** Induction on documents *)
(* ===================================================================== *)

Section NodeInduction.
Variable P : Node -> Prop.
Hypothesis text_case : forall s, P (NText s).
Hypothesis tag_case :
  forall name attrs contents, Forall P contents -> P (NTag name attrs contents).

Fixpoint Node_tree_ind (n : Node) : P n :=
  match n with
  | NText s => text_case s
  | NTag name attrs contents =>
      tag_case name attrs contents
        ((fix all (l : list Node) : Forall P l :=
            match l with
            | [] => Forall_nil P
            | c :: l' => Forall_cons c (Node_tree_ind c) (all l')
            end) contents)
  end.
End NodeInduction.

(* ===================================================================== *)
(** ** Facts about dictionaries and strings *)
(* ===================================================================== *)

Section DictFacts.
Context {V : Type}.
Implicit Types (d : Dict V) (k : string) (v : V).

Lemma dict_get_set_same k v d : dict_get k (dict_set k v d) = Some v.
Proof.
  induction d as [|[k' v'] d IH]; simpl.
  - now rewrite String.eqb_refl.
  - destruct (String.eqb k k') eqn:E; simpl; rewrite E; auto.
Qed.

Lemma dict_get_set_other k k' v d :
  k <> k' -> dict_get k (dict_set k' v d) = dict_get k d.
Proof.
  intros Hne. induction d as [|[k0 v0] d IH]; simpl.
  - apply String.eqb_neq in Hne. now rewrite Hne.
  - destruct (String.eqb k' k0) eqn:E; simpl.
    + apply String.eqb_eq in E. subst k0.
      apply String.eqb_neq in Hne. now rewrite Hne.
    + now rewrite IH.
Qed.

Lemma dict_mem_true k d : dict_mem k d = true -> exists v, dict_get k d = Some v.
Proof. unfold dict_mem. destruct (dict_get k d); eauto; discriminate. Qed.

Lemma dict_mem_false k d : dict_mem k d = false -> dict_get k d = None.
Proof. unfold dict_mem. destruct (dict_get k d); auto; discriminate. Qed.

(** An entry of [d[k] = v] is the new one or an old one. *)
Lemma in_dict_set k v d kv :
  In kv (dict_set k v d) -> kv = (k, v) \/ In kv d.
Proof.
  induction d as [|[k0 v0] d IH]; simpl.
  - intros [<-|[]]; auto.
  - destruct (String.eqb k k0) eqn:E; simpl.
    + apply String.eqb_eq in E. subst k0. intros [<-|H]; auto.
    + intros [<-|H]; auto. destruct (IH H); auto.
Qed.

Lemma dict_get_in k v d : dict_get k d = Some v -> In (k, v) d.
Proof.
  induction d as [|[k0 v0] d IH]; simpl; [discriminate|].
  destruct (String.eqb k k0) eqn:E.
  - apply String.eqb_eq in E. subst k0. intros [= ->]. auto.
  - auto.
Qed.
End DictFacts.

Lemma dict_get_or_append_same {A} k (x : A) d :
  dict_get_or k [] (dict_append k x d) = dict_get_or k [] d ++ [x].
Proof. unfold dict_append, dict_get_or at 1. now rewrite dict_get_set_same. Qed.

Lemma dict_get_or_append_other {A} k k' (x : A) d :
  k <> k' -> dict_get_or k [] (dict_append k' x d) = dict_get_or k [] d.
Proof.
  intros Hne. unfold dict_append, dict_get_or at 1.
  rewrite dict_get_set_other by assumption. reflexivity.
Qed.

(** Appending [x] under each key of [keys] adds [x] to a key as often as the
    key occurs. *)
Lemma fold_dict_append_get {A} (x : A) (keys : list string) (d : Dict (list A)) k :
  dict_get_or k [] (fold_left (fun acc key => dict_append key x acc) keys d)
  = dict_get_or k [] d ++ repeat x (count_occ string_dec keys k).
Proof.
  revert d. induction keys as [|a keys IH]; intros d; simpl.
  - now rewrite app_nil_r.
  - rewrite IH. destruct (string_dec a k) as [->|Hne].
    + rewrite dict_get_or_append_same, <- app_assoc. reflexivity.
    + rewrite dict_get_or_append_other by congruence. reflexivity.
Qed.

Lemma string_app_empty (a b : string) : (a ++ b)%string = "" -> a = "".
Proof. destruct a; simpl; [reflexivity | discriminate]. Qed.

(** Joining tokens that are not empty gives the empty string only for no
    token at all. *)
Lemma join_empty sep (l : list string) :
  Forall (fun t => t <> "") l -> Py.join sep l = "" -> l = [].
Proof.
  destruct l as [|x rest]; [reflexivity|].
  intros Hall Hj. inversion Hall as [|? ? Hx _]; subst. exfalso. apply Hx.
  simpl in Hj. destruct rest; [assumption|].
  now apply string_app_empty in Hj.
Qed.

Lemma truthy_false s : Py.truthy s = false <-> s = "".
Proof. destruct s; simpl; split; congruence. Qed.

Lemma existsb_eqb_In (x : string) l : existsb (String.eqb x) l = true <-> In x l.
Proof.
  rewrite existsb_exists. split.
  - intros (y & Hy & E). apply String.eqb_eq in E. now subst.
  - intros H. exists x. split; [assumption | apply String.eqb_refl].
Qed.

(* ===================================================================== *)
(** ** The rel pass *)
(* ===================================================================== *)

Section RelFacts.
Variable C : Collaborators.
Variable base_url : Url.

(** The rel values kept for an alternate are the tokens other than
    "alternate". *)
Lemma other_rels_remove tokens :
  other_rels (AList tokens) = remove string_dec "alternate" tokens.
Proof.
  unfold other_rels. cbn [py_iter].
  induction tokens as [|t tokens IH]; [reflexivity|].
  cbn [filter remove]. destruct (string_dec "alternate" t) as [<-|Hne].
  - rewrite String.eqb_refl. exact IH.
  - assert (String.eqb t "alternate" = false) as ->
      by (apply String.eqb_neq; congruence).
    cbn [negb]. now rewrite IH.
Qed.

Lemma py_in_list x tokens : py_in x (AList tokens) = true <-> In x tokens.
Proof. simpl. apply existsb_eqb_In. Qed.

Lemma parse_rels_alternate el parsed tokens url :
  get_attr C el "rel" = Some (AList tokens) ->
  urljoin C base_url (el_get_or el "href" (AStr "")) = Ok url ->
  In "alternate" tokens ->
  parse_rels C base_url el parsed =
  Ok (mkParsed (items parsed) (rels parsed)
        (Some (match alternates parsed with Some l => l | None => [] end ++
               [alternate_entry C el (AList tokens) url]))).
Proof.
  intros Hrel Hurl Hin. unfold parse_rels. rewrite Hrel, Hurl. cbn [bind].
  apply py_in_list in Hin. rewrite Hin. reflexivity.
Qed.

Lemma parse_rels_plain el parsed tokens url :
  get_attr C el "rel" = Some (AList tokens) ->
  urljoin C base_url (el_get_or el "href" (AStr "")) = Ok url ->
  ~ In "alternate" tokens ->
  parse_rels C base_url el parsed =
  Ok (mkParsed (items parsed)
        (fold_left (fun acc t => dict_append t url acc) tokens (rels parsed))
        (alternates parsed)).
Proof.
  intros Hrel Hurl Hin. unfold parse_rels. rewrite Hrel, Hurl. cbn [bind].
  destruct (py_in "alternate" (AList tokens)) eqn:E.
  - apply py_in_list in E. contradiction.
  - reflexivity.
Qed.

(** The rel pass never touches the items. *)
Lemma parse_rels_items el parsed parsed' :
  parse_rels C base_url el parsed = Ok parsed' -> items parsed' = items parsed.
Proof.
  unfold parse_rels. destruct (get_attr C el "rel"); [|now intros [= <-]].
  destruct (urljoin C base_url _); simpl; [|discriminate].
  destruct (negb _); intros [= <-]; reflexivity.
Qed.

Lemma for_each_parse_rels_items els parsed parsed' :
  for_each (parse_rels C base_url) els parsed = Ok parsed' ->
  items parsed' = items parsed.
Proof.
  revert parsed. induction els as [|el els IH]; intros parsed; simpl.
  - now intros [= <-].
  - destruct (parse_rels C base_url el parsed) eqn:E; simpl; [|discriminate].
    intros H. apply IH in H. apply parse_rels_items in E. congruence.
Qed.

(** [parse_rels] returns when [urljoin] does. *)
Lemma parse_rels_succeeds el parsed :
  (get_attr C el "rel" <> None ->
   succeeds (urljoin C base_url (el_get_or el "href" (AStr "")))) ->
  succeeds (parse_rels C base_url el parsed).
Proof.
  unfold parse_rels, succeeds. intros H.
  destruct (get_attr C el "rel"); [|eauto].
  destruct H as [u ->]; [discriminate|]. simpl.
  destruct (negb _); eauto.
Qed.

Lemma for_each_parse_rels_succeeds els parsed :
  Forall (fun el => get_attr C el "rel" <> None ->
                    succeeds (urljoin C base_url (el_get_or el "href" (AStr "")))) els ->
  succeeds (for_each (parse_rels C base_url) els parsed).
Proof.
  intros Hall. revert parsed.
  induction Hall as [|el els Hel _ IH]; intros parsed; simpl.
  - now exists parsed.
  - destruct (parse_rels_succeeds el parsed Hel) as [p ->]. simpl. apply IH.
Qed.
End RelFacts.

(** C7: the alternate entry of an element whose rel tokens contain
    "alternate": [rel] is the other tokens joined with spaces and is left
    out exactly when there is no other token; [media], [hreflang] and [type]
    are what the attribute lookup returns, present or not. *)
Theorem alternate_entry_fields
        (C : Collaborators) (base_url : Url) (el : Node) (parsed : Parsed)
        (tokens : list string) (url : string) :
  get_attr C el "rel" = Some (AList tokens) ->
  In "alternate" tokens ->
  Forall (fun t => t <> "") tokens ->
  urljoin C base_url (el_get_or el "href" (AStr "")) = Ok url ->
  let remaining := remove string_dec "alternate" tokens in
  exists entry,
    parse_rels C base_url el parsed =
    Ok (mkParsed (items parsed) (rels parsed)
          (Some (match alternates parsed with Some l => l | None => [] end ++ [entry]))) /\
    alt_url entry = url /\
    alt_rel entry = match remaining with
                    | [] => None
                    | _ :: _ => Some (Py.join " " remaining)
                    end /\
    (alt_rel entry = None <-> remaining = []) /\
    alt_media entry = get_attr C el "media" /\
    alt_hreflang entry = get_attr C el "hreflang" /\
    alt_type entry = get_attr C el "type".
Proof.
  intros Hrel Hin Hne Hurl remaining.
  exists (alternate_entry C el (AList tokens) url).
  split; [apply parse_rels_alternate; assumption|].
  unfold alternate_entry. rewrite other_rels_remove. fold remaining. simpl.
  assert (Hrem : Forall (fun t => t <> "") remaining).
  { apply Forall_forall. intros t Ht. apply in_remove in Ht as [Ht _].
    rewrite Forall_forall in Hne. now apply Hne. }
  assert (Hrel' : (if Py.truthy (Py.join " " remaining)
                   then Some (Py.join " " remaining) else None)
                  = match remaining with
                    | [] => None
                    | _ :: _ => Some (Py.join " " remaining)
                    end).
  { destruct (Py.truthy (Py.join " " remaining)) eqn:E.
    - destruct remaining; [discriminate E | reflexivity].
    - apply truthy_false in E. now rewrite (join_empty " " remaining Hrem E). }
  rewrite Hrel'. repeat split; try reflexivity.
  - destruct remaining; [reflexivity | discriminate].
  - intros ->. reflexivity.
Qed.

Lemma alternate_entry_fields_witness :
  exists entry,
    parse_rels Sample.collaborators (Some (AStr "http://example.com/"))
               Examples.feed_link (mkParsed [] [] None)
    = Ok (mkParsed [] [] (Some [entry])) /\
    alt_rel entry = None /\
    alt_type entry = Some (AStr "application/rss+xml").
Proof.
  destruct (alternate_entry_fields
              Sample.collaborators (Some (AStr "http://example.com/"))
              Examples.feed_link (mkParsed [] [] None)
              ["alternate"] "http://example.com/feed" eq_refl)
    as (entry & Hp & _ & Hr & _ & _ & _ & Ht).
  - left; reflexivity.
  - constructor; [discriminate | constructor].
  - reflexivity.
  - exists entry. split; [exact Hp|]. split; [exact Hr | exact Ht].
Defined.

(* ===================================================================== *)
(** ** The output views *)
(* ===================================================================== *)

(** C8: with a type, [to_dict] returns a bare list: exactly the top-level
    records whose type list holds the token, in the order of the items, and
    the empty list when none does; without a type it returns the whole
    dictionary. *)
Theorem to_dict_filter_shape (self : Parser) :
  Parser_to_dict self None = FullDict (parsed__ self) /\
  forall t : string,
  exists (keep : Microformat -> bool) (l : list Microformat),
    Parser_to_dict self (Some t) = ItemList l /\
    (forall x, keep x = true <-> In t (mf_type x)) /\
    l = filter keep (items (parsed__ self)) /\
    (forall x, In x l <-> In x (items (parsed__ self)) /\ In t (mf_type x)) /\
    ((forall x, In x (items (parsed__ self)) -> ~ In t (mf_type x)) -> l = []).
Proof.
  split; [reflexivity|]. intros t.
  set (keep := fun x : Microformat => existsb (String.eqb t) (mf_type x)).
  assert (Hkeep : forall x, keep x = true <-> In t (mf_type x))
    by (intros x; apply existsb_eqb_In).
  exists keep, (filter keep (items (parsed__ self))).
  split; [reflexivity|]. split; [exact Hkeep|]. split; [reflexivity|]. split.
  - intros x. rewrite filter_In, Hkeep. reflexivity.
  - intros Hnone. induction (items (parsed__ self)) as [|x xs IH]; [reflexivity|].
    simpl. destruct (keep x) eqn:E.
    + apply Hkeep in E. exfalso. apply (Hnone x); [now left | assumption].
    + apply IH. intros y Hy. apply Hnone. now right.
Qed.

(** C10: with neither a document nor a URL nothing is fetched and nothing is
    parsed: the parser keeps no document and the result is the empty
    dictionary, with no alternates. *)
Theorem parse_without_document (C : Collaborators) :
  Parser_init C None None = Ok (mkParser None None (mkParsed [] [] None)) /\
  parse C None None = Ok (FullDict (mkParsed [] [] None)).
Proof. split; reflexivity. Qed.

(* ===================================================================== *)
(** ** Records and the carried date *)
(* ===================================================================== *)

Section WalkFacts.
Variable C : Collaborators.
Variable base_url : Url.

(** [handle_microformat] starts from an empty default date whatever it is
    handed: neither the record nor the date it leaves depend on the date
    of the caller. *)
Lemma handle_microformat_forgets roots el simple_value st st' :
  handle_microformat C base_url roots el simple_value st =
  handle_microformat C base_url roots el simple_value st'.
Proof. reflexivity. Qed.

Lemma handle_microformat_type roots el simple_value st :
  mf_type (fst (handle_microformat C base_url roots el simple_value st)) = roots.
Proof.
  unfold handle_microformat, handle_microformat_with.
  destruct (scan_children _ _ _ _) as [[properties children] st1]. reflexivity.
Qed.

Lemma handle_microformat_value roots el simple_value st :
  mf_value (fst (handle_microformat C base_url roots el simple_value st)) = simple_value.
Proof.
  unfold handle_microformat, handle_microformat_with.
  destruct (scan_children _ _ _ _) as [[properties children] st1]. reflexivity.
Qed.

Lemma carries_root_true el :
  carries_root C el = true -> potential_microformats C el <> [].
Proof. unfold carries_root. destruct (potential_microformats C el); congruence. Qed.

(** The top-level walk appends the records of the maximal roots. *)
Lemma parse_el_maximal_roots el :
  forall ctx st,
    fst (parse_el C base_url el ctx st) =
    ctx ++ map (record_of C base_url) (spec_maximal_roots C el).
Proof.
  induction el as [s | name attrs contents IH] using Node_tree_ind; intros ctx st.
  - simpl. now rewrite app_nil_r.
  - cbn [parse_el spec_maximal_roots]. unfold carries_root.
    set (el := NTag name attrs contents) in *.
    destruct (potential_microformats C el) as [|r rs] eqn:Eroots.
    + clearbody el. revert ctx st.
      induction IH as [|c cs Hc _ IHcs]; intros ctx st.
      * simpl. now rewrite app_nil_r.
      * destruct c as [s | n a k].
        -- simpl flat_map. apply IHcs.
        -- cbn [flat_map].
           destruct (parse_el C base_url (NTag n a k) ctx st) as [ctx1 st1] eqn:E.
           rewrite IHcs. specialize (Hc ctx st). rewrite E in Hc. simpl in Hc.
           rewrite Hc, map_app, app_assoc. reflexivity.
    + destruct (handle_microformat C base_url (r :: rs) el None st) as [result st1] eqn:E.
      simpl. unfold record_of. rewrite Eroots.
      rewrite (handle_microformat_forgets (r :: rs) el None None st), E. reflexivity.
Qed.

Lemma top_level_items_maximal_roots doc :
  top_level_items C base_url doc =
  map (record_of C base_url) (spec_maximal_roots C doc).
Proof. unfold top_level_items. now rewrite parse_el_maximal_roots. Qed.

Lemma Parser_parse_items doc parsed parsed' :
  Parser_parse C base_url doc parsed = Ok parsed' ->
  items parsed' = map (record_of C base_url) (spec_maximal_roots C doc).
Proof.
  unfold Parser_parse. intros H. apply for_each_parse_rels_items in H.
  rewrite H. simpl. apply top_level_items_maximal_roots.
Qed.
End WalkFacts.

Lemma Parser_init_document C doc url self d :
  Parser_init C doc url = Ok self -> doc__ self = Some d ->
  Parser_parse C (url__ self) d (mkParsed [] [] None) = Ok (parsed__ self).
Proof.
  unfold Parser_init. intros H Hd.
  destruct (fetch_if_needed C url (doc_of_arg C doc)) as [[u0 d0]|] eqn:E0;
    cbn [bind] in H; [|discriminate].
  destruct (apply_base C u0 d0) as [u1|] eqn:E1; cbn [bind] in H; [|discriminate].
  destruct d0 as [d0|].
  - destruct (Parser_parse C u1 _ _) as [p|] eqn:E2; cbn [bind] in H; [|discriminate].
    injection H as <-. simpl in Hd. injection Hd as <-. simpl. exact E2.
  - injection H as <-. discriminate Hd.
Qed.

(** C4: the items of a parse are the records of the maximal root-classname
    elements of the document, one per element and in the order of the
    depth-first walk that stops at a root. *)
Theorem items_are_maximal_roots
        (C : Collaborators) (doc : option DocArg) (url : option string)
        (self : Parser) (d : Node) :
  Parser_init C doc url = Ok self ->
  doc__ self = Some d ->
  items (parsed__ self) = map (record_of C (url__ self)) (spec_maximal_roots C d) /\
  length (items (parsed__ self)) = length (spec_maximal_roots C d).
Proof.
  intros Hinit Hd.
  pose proof (Parser_init_document C doc url self d Hinit Hd) as Hp.
  apply Parser_parse_items in Hp. split; [exact Hp|].
  rewrite Hp. apply length_map.
Qed.

Lemma items_are_maximal_roots_witness :
  exists self,
    Parser_init Sample.collaborators (Some (DocSoup Examples.entry)) None = Ok self /\
    length (items (parsed__ self)) = 1.
Proof.
  eexists. split; [reflexivity|].
  exact (proj2 (items_are_maximal_roots
                  Sample.collaborators (Some (DocSoup Examples.entry)) None
                  _ Examples.entry eq_refl eq_refl)).
Defined.

(* ===================================================================== *)
(** ** The property loops *)
(* ===================================================================== *)

Section LoopFacts.
Variable nested : Scalar -> State -> Microformat * State.
Variable root_class_names : list string.
Variable extract : State -> Scalar * State.

(** [handle_microformat] overwrites the default date on entry. *)
Hypothesis nested_forgets : forall v st st', nested v st = nested v st'.

Lemma property_step_parsed props v st n name :
  property_step nested root_class_names extract (props, Some v, st, n) name =
  (dict_append name (appended_value nested root_class_names v) props, Some v, date_after nested root_class_names v st, n).
Proof.
  unfold property_step, appended_value, date_after.
  destruct root_class_names; [reflexivity|].
  rewrite (nested_forgets v st None). destruct (nested v None). reflexivity.
Qed.

Lemma property_step_first props st n name :
  property_step nested root_class_names extract (props, None, st, n) name =
  (dict_append name (appended_value nested root_class_names (fst (extract st))) props,
   Some (fst (extract st)),
   date_after nested root_class_names (fst (extract st)) (snd (extract st)), S n).
Proof.
  unfold property_step, appended_value, date_after.
  destruct (extract st) as [v st1]. simpl fst. simpl snd.
  destruct root_class_names; [reflexivity|].
  rewrite (nested_forgets v st1 None). destruct (nested v None). reflexivity.
Qed.

Lemma date_after_idem v st : date_after nested root_class_names v (date_after nested root_class_names v st) = date_after nested root_class_names v st.
Proof. unfold date_after. destruct root_class_names; reflexivity. Qed.

(** Once the value is parsed, the rest of the loop appends it under every
    name and never parses again. *)
Lemma fold_property_step_parsed names props v st n :
  fold_left (property_step nested root_class_names extract) names
            (props, Some v, date_after nested root_class_names v st, n) =
  (append_all (appended_value nested root_class_names v) names props, Some v, date_after nested root_class_names v st, n).
Proof.
  revert props. induction names as [|name names IH]; intros props; [reflexivity|].
  cbn [fold_left]. rewrite property_step_parsed, date_after_idem. apply IH.
Qed.

(** The loop in closed form: no name, nothing happens; otherwise the value
    is parsed once, from the default date at the start of the loop, and
    the same value is appended under each name. *)
Lemma property_loop_closed names props st :
  property_loop nested root_class_names extract names props st =
  match names with
  | [] => (props, st, 0)
  | _ :: _ =>
      let v := fst (extract st) in
      (append_all (appended_value nested root_class_names v) names props,
       date_after nested root_class_names v (snd (extract st)), 1)
  end.
Proof.
  unfold property_loop. destruct names as [|name names]; [reflexivity|].
  cbn [fold_left]. rewrite property_step_first, fold_property_step_parsed.
  reflexivity.
Qed.
End LoopFacts.

Lemma append_all_get V names props name :
  dict_get_or name [] (append_all V names props) =
  dict_get_or name [] props ++ repeat V (count_occ string_dec names name).
Proof. apply fold_dict_append_get. Qed.

Lemma count_occ_pos (names : list string) name :
  In name names -> exists n, count_occ string_dec names name = S n.
Proof.
  intros H. apply (count_occ_In string_dec) in H.
  destruct (count_occ string_dec names name); [lia | eauto].
Qed.

(* ===================================================================== *)
(** ** What an element contributes to the enclosing record *)
(* ===================================================================== *)

Lemma dict_append_nil {A} k (x : A) : dict_append k x [] = [(k, [x])].
Proof. reflexivity. Qed.

Lemma dict_append_cons {A} k (x : A) k' v' d :
  dict_append k x ((k', v') :: d) =
  if String.eqb k k' then (k', v' ++ [x]) :: d else (k', v') :: dict_append k x d.
Proof.
  unfold dict_append, dict_get_or. simpl. destruct (String.eqb k k'); reflexivity.
Qed.

Lemma dict_extend_cons {A} k (xs : list A) k' v' d :
  dict_extend k xs ((k', v') :: d) =
  if String.eqb k k' then (k', v' ++ xs) :: d else (k', v') :: dict_extend k xs d.
Proof.
  unfold dict_extend, dict_get_or. simpl. destruct (String.eqb k k'); reflexivity.
Qed.

Lemma count_values_append k x props :
  count_values (dict_append k x props) = S (count_values props).
Proof.
  unfold count_values. induction props as [|[k' v'] props IH].
  - reflexivity.
  - rewrite dict_append_cons. destruct (String.eqb k k'); simpl.
    + rewrite !length_app. simpl. lia.
    + rewrite !length_app in *. rewrite IH. lia.
Qed.

Lemma count_values_append_all V names props :
  count_values (append_all V names props) = length names + count_values props.
Proof.
  revert props. induction names as [|n names IH]; intros props; [reflexivity|].
  change (append_all V (n :: names) props)
    with (append_all V names (dict_append n V props)).
  rewrite IH, count_values_append. simpl. lia.
Qed.

Lemma props_within_nil allowed Q : props_within allowed Q [].
Proof. intros k vs []. Qed.

Lemma props_within_append allowed Q k x props :
  In k allowed -> Q x -> props_within allowed Q props ->
  props_within allowed Q (dict_append k x props).
Proof.
  intros Hk Hx Hp k0 vs Hin. unfold dict_append in Hin.
  apply in_dict_set in Hin as [[= -> ->]|Hin]; [|now apply Hp].
  split; [assumption|]. apply Forall_app. split; [|now repeat constructor].
  unfold dict_get_or. destruct (dict_get k props) eqn:E; [|constructor].
  apply dict_get_in in E. now apply Hp in E.
Qed.

Lemma props_within_append_all allowed Q V names props :
  incl names allowed -> Q V -> props_within allowed Q props ->
  props_within allowed Q (append_all V names props).
Proof.
  revert props. induction names as [|n names IH]; intros props Hincl HV Hp; [assumption|].
  change (append_all V (n :: names) props)
    with (append_all V names (dict_append n V props)).
  apply IH.
  - intros x Hx. apply Hincl. now right.
  - assumption.
  - apply props_within_append; [apply Hincl; now left | assumption | assumption].
Qed.

Section ScanFacts.
Variable C : Collaborators.
Variable base_url : Url.

Lemma parse_props_tag el st :
  is_tag el = true -> parse_props C base_url el st = parse_props_body C base_url el st.
Proof. destruct el; [discriminate | reflexivity]. Qed.

(** A loop of an element with root classnames appends nested records of
    that element, and nothing else. *)
Lemma property_loop_root el r rs extract names props st :
  exists sv st' n,
    property_loop (fun v => handle_microformat C base_url (r :: rs) el (Some v))
                  (r :: rs) extract names props st =
    (append_all
       (PRecord (fst (handle_microformat C base_url (r :: rs) el (Some sv) None)))
       names props, st', n).
Proof.
  rewrite property_loop_closed by (intros; apply handle_microformat_forgets).
  destruct names as [|n0 names].
  - exists (SStr ""), st, 0. reflexivity.
  - exists (fst (extract st)). do 2 eexists. reflexivity.
Qed.

(** A loop of an element without root classnames appends scalars. *)
Lemma property_loop_plain nested extract names props st :
  exists v st' n,
    property_loop nested [] extract names props st =
    (append_all (PScalar v) names props, st', n).
Proof.
  unfold property_loop.
  assert (Hparsed : forall names props v st n,
             fold_left (property_step nested [] extract) names (props, Some v, st, n) =
             (append_all (PScalar v) names props, Some v, st, n)).
  { clear. induction names as [|n0 names IH]; intros; [reflexivity|].
    cbn [fold_left]. unfold property_step at 2. rewrite IH. reflexivity. }
  destruct names as [|n0 names].
  - exists (SStr ""), st, 0. reflexivity.
  - cbn [fold_left]. unfold property_step at 2.
    destruct (extract st) as [v st1]. rewrite Hparsed.
    exists v, st1, 1. reflexivity.
Qed.

Lemma parse_props_of_root el st r rs :
  is_tag el = true ->
  mf2_root C (el_classes el) = r :: rs ->
  exists V1 V2 V3 V4 st',
    nested_record_of C base_url el V1 /\ nested_record_of C base_url el V2 /\
    nested_record_of C base_url el V3 /\ nested_record_of C base_url el V4 /\
    parse_props C base_url el st =
    ((append_all V4 (mf2_embedded C (el_classes el))
        (append_all V3 (mf2_datetime C (el_classes el))
           (append_all V2 (mf2_url C (el_classes el))
              (append_all V1 (mf2_text C (el_classes el)) []))),
      (if declares_property C (el_classes el) then []
       else [fst (handle_microformat C base_url (r :: rs) el None None)])),
     st').
Proof.
  intros Htag Hroots. rewrite parse_props_tag by assumption.
  unfold parse_props_body, nested_record_of. rewrite Hroots.
  cbv beta zeta.
  destruct (property_loop_root el r rs (extract_text C el)
              (mf2_text C (el_classes el)) [] st) as (sv1 & st1 & n1 & ->).
  cbv beta iota zeta.
  destruct (property_loop_root el r rs (extract_url C base_url el)
              (mf2_url C (el_classes el))
              (append_all
                 (PRecord (fst (handle_microformat C base_url (r :: rs) el (Some sv1) None)))
                 (mf2_text C (el_classes el)) []) st1) as (sv2 & st2 & n2 & ->).
  cbv beta iota zeta.
  match goal with
  | |- context [property_loop ?f ?rt (extract_datetime C el) ?ns ?p ?s] =>
      destruct (property_loop_root el r rs (extract_datetime C el) ns p s)
        as (sv3 & st3 & n3 & ->)
  end.
  cbv beta iota zeta.
  match goal with
  | |- context [property_loop ?f ?rt (extract_embedded C el) ?ns ?p ?s] =>
      destruct (property_loop_root el r rs (extract_embedded C el) ns p s)
        as (sv4 & st4 & n4 & ->)
  end.
  cbv beta iota zeta.
  do 4 eexists.
  destruct (declares_property C (el_classes el)).
  - eexists. repeat (split; [eexists; reflexivity|]). reflexivity.
  - destruct (handle_microformat C base_url (r :: rs) el None st4) as [m st5] eqn:E.
    eexists. repeat (split; [eexists; reflexivity|]).
    rewrite (handle_microformat_forgets C base_url (r :: rs) el None None st4), E.
    reflexivity.
Qed.
End ScanFacts.

(** C3: an element with root classnames hands the enclosing record nothing
    but itself.  Its properties are nested records of the element, one per
    property name it declares and under that name; it is a bare child record
    when it declares none.  The scan does not go into its children, so none
    of their properties reaches the enclosing record. *)
Theorem nested_root_contributes_only_records
        (C : Collaborators) (base_url : Url) (el : Node) (st : State) :
  is_tag el = true ->
  mf2_root C (el_classes el) <> [] ->
  let roots := mf2_root C (el_classes el) in
  let found := fst (parse_props C base_url el st) in
  (forall k vs,
      In (k, vs) (fst found) ->
      In k (declared_names C el) /\
      Forall (fun v => exists sv,
                  v = PRecord (fst (handle_microformat C base_url roots el (Some sv) None)))
             vs) /\
  count_values (fst found) = length (declared_names C el) /\
  snd found = match declared_names C el with
              | [] => [fst (handle_microformat C base_url roots el None None)]
              | _ :: _ => []
              end.
Proof.
  intros Htag Hroots roots found. subst found.
  destruct (mf2_root C (el_classes el)) as [|r rs] eqn:Er; [congruence|].
  destruct (parse_props_of_root C base_url el st r rs Htag Er)
    as (V1 & V2 & V3 & V4 & st' & H1 & H2 & H3 & H4 & ->).
  unfold nested_record_of in *. rewrite Er in *. subst roots.
  cbn [fst snd]. split; [|split].
  - unfold declared_names.
    apply (props_within_append_all _ _ V4); [|assumption|].
    { intros x Hx. rewrite !in_app_iff. auto. }
    apply (props_within_append_all _ _ V3); [|assumption|].
    { intros x Hx. rewrite !in_app_iff. auto. }
    apply (props_within_append_all _ _ V2); [|assumption|].
    { intros x Hx. rewrite !in_app_iff. auto. }
    apply (props_within_append_all _ _ V1); [|assumption|].
    { intros x Hx. rewrite !in_app_iff. auto. }
    apply props_within_nil.
  - rewrite !count_values_append_all. unfold declared_names.
    rewrite !length_app. unfold count_values. simpl. lia.
  - unfold declares_property, declared_names.
    destruct (_ ++ _); reflexivity.
Qed.

Lemma nested_root_contributes_only_records_witness :
  count_values (fst (fst (parse_props Sample.collaborators None
                                      Examples.author_span None))) = 1 /\
  snd (fst (parse_props Sample.collaborators None Examples.author_span None)) = [].
Proof.
  destruct (nested_root_contributes_only_records
              Sample.collaborators None Examples.author_span None eq_refl)
    as (_ & Hcount & Hchildren).
  - discriminate.
  - split; [exact Hcount | exact Hchildren].
Defined.

(* ===================================================================== *)
(** ** Property lists are never empty *)
(* ===================================================================== *)

Lemma mf_ok_unfold t properties sh co children v :
  mf_ok (mkMicroformat t properties sh co children v) =
  props_ok properties &&
  match children with None => true | Some l => forallb mf_ok l end.
Proof. reflexivity. Qed.

Lemma entry_ok_intro k (vs : list PropertyValue) :
  vs <> [] -> forallb value_ok vs = true -> entry_ok (k, vs) = true.
Proof.
  intros Hne Hall. unfold entry_ok. simpl. rewrite Hall.
  destruct vs; [contradiction | reflexivity].
Qed.

Lemma entry_ok_values k vs : entry_ok (k, vs) = true -> forallb value_ok vs = true.
Proof. unfold entry_ok. simpl. intros H. now apply andb_true_iff in H. Qed.

Lemma entry_ok_nonempty k vs : entry_ok (k, vs) = true -> vs <> [].
Proof. unfold entry_ok. simpl. destruct vs; [discriminate | discriminate]. Qed.

Lemma props_ok_extend k xs props :
  props_ok props = true -> xs <> [] -> forallb value_ok xs = true ->
  props_ok (dict_extend k xs props) = true.
Proof.
  intros Hp Hne Hxs. induction props as [|[k' v'] props IH].
  - unfold dict_extend, dict_get_or. simpl.
    rewrite (entry_ok_intro k xs Hne Hxs). reflexivity.
  - rewrite dict_extend_cons. simpl in Hp. apply andb_true_iff in Hp as [He Hp].
    destruct (String.eqb k k'); simpl.
    + rewrite Hp, andb_true_r. apply entry_ok_intro.
      * destruct v'; [now apply entry_ok_nonempty in He | discriminate].
      * rewrite forallb_app, (entry_ok_values _ _ He), Hxs. reflexivity.
    + rewrite He, (IH Hp). reflexivity.
Qed.

Lemma props_ok_append k x props :
  props_ok props = true -> value_ok x = true ->
  props_ok (dict_append k x props) = true.
Proof.
  intros Hp Hx. apply (props_ok_extend k [x] props Hp); [discriminate|].
  simpl. now rewrite Hx.
Qed.

Lemma props_ok_append_all V names props :
  props_ok props = true -> value_ok V = true ->
  props_ok (append_all V names props) = true.
Proof.
  revert props. induction names as [|n names IH]; intros props Hp HV; [assumption|].
  change (append_all V (n :: names) props)
    with (append_all V names (dict_append n V props)).
  apply IH; [now apply props_ok_append | assumption].
Qed.

Lemma props_ok_set k vs props :
  props_ok props = true -> entry_ok (k, vs) = true ->
  props_ok (dict_set k vs props) = true.
Proof.
  intros Hp He. induction props as [|[k' v'] props IH]; simpl.
  - now rewrite He.
  - simpl in Hp. apply andb_true_iff in Hp as [He' Hp].
    destruct (String.eqb k k') eqn:E; simpl.
    + apply String.eqb_eq in E. subst k'. now rewrite He, Hp.
    + now rewrite He', (IH Hp).
Qed.

Lemma scalars_ok (l : list Scalar) : forallb value_ok (map PScalar l) = true.
Proof. induction l; simpl; auto. Qed.

Section NonEmptyLists.
Variable C : Collaborators.
Variable base_url : Url.

Hypothesis name_given : forall el, implied_name C el <> [].
Hypothesis photo_given : forall el l, implied_photo C el base_url = Some l -> l <> [].
Hypothesis url_given : forall el l, implied_url C el base_url = Some l -> l <> [].

Lemma merge_ok acc child : scan_ok acc -> scan_ok child -> scan_ok (merge acc child).
Proof.
  intros [Hp Hc] [Hp' Hc']. destruct acc as [props children].
  destruct child as [props' children']. unfold merge, scan_ok. simpl in *.
  split; [|now rewrite forallb_app, Hc, Hc'].
  clear Hc Hc' children children'. revert props Hp.
  induction props' as [|[k vs] props' IH]; intros props Hp; [assumption|].
  simpl in Hp'. apply andb_true_iff in Hp' as [He Hp']. simpl.
  apply IH; [assumption|].
  apply props_ok_extend;
    [assumption | now apply entry_ok_nonempty in He | now apply entry_ok_values in He].
Qed.

Lemma scan_children_ok pp contents :
  Forall (fun c => forall st, scan_ok (fst (pp c st))) contents ->
  forall acc st, scan_ok acc -> scan_ok (fst (scan_children pp contents acc st)).
Proof.
  induction 1 as [|c cs Hc _ IH]; intros acc st Hacc; [assumption|].
  destruct c as [s | n a k]; cbn [scan_children].
  - now apply IH.
  - destruct (pp (NTag n a k) st) as [found st1] eqn:E.
    apply IH. apply merge_ok; [assumption|].
    specialize (Hc st). now rewrite E in Hc.
Qed.

Lemma map_PScalar_nonempty (l : list Scalar) : l <> [] -> map PScalar l <> [].
Proof. destruct l; [contradiction | discriminate]. Qed.

Lemma add_implied_ok el props :
  props_ok props = true -> props_ok (add_implied C base_url el props) = true.
Proof.
  intros Hp. unfold add_implied.
  assert (Hset : forall k l p, l <> [] -> props_ok p = true ->
                               props_ok (dict_set k (map PScalar l) p) = true).
  { intros k l p Hl Hok. apply props_ok_set; [assumption|].
    apply entry_ok_intro; [now apply map_PScalar_nonempty | apply scalars_ok]. }
  set (p1 := if dict_mem "name" props then props
             else dict_set "name" (map PScalar (implied_name C el)) props).
  assert (H1 : props_ok p1 = true).
  { subst p1. destruct (dict_mem "name" props); [assumption|]. now apply Hset. }
  set (p2 := if dict_mem "photo" p1 then p1
             else match implied_photo C el base_url with
                  | Some x => dict_set "photo" (map PScalar x) p1
                  | None => p1
                  end).
  assert (H2 : props_ok p2 = true).
  { subst p2. destruct (dict_mem "photo" p1); [assumption|].
    destruct (implied_photo C el base_url) eqn:E; [|assumption].
    apply Hset; [now apply (photo_given el) | assumption]. }
  destruct (dict_mem "url" p2); [assumption|].
  destruct (implied_url C el base_url) eqn:E; [|assumption].
  apply Hset; [now apply (url_given el) | assumption].
Qed.

Lemma handle_microformat_with_ok pp roots el contents simple_value st :
  Forall (fun c => forall st, scan_ok (fst (pp c st))) contents ->
  mf_ok (fst (handle_microformat_with C base_url pp roots el contents simple_value st))
  = true.
Proof.
  intros Hall. unfold handle_microformat_with.
  pose proof (scan_children_ok pp contents Hall ([], []) None) as Hscan.
  destruct (scan_children pp contents ([], []) None) as [[properties children] st1].
  destruct Hscan as [Hp Hc]; [split; reflexivity|]. simpl in Hp, Hc.
  unfold build_microformat. simpl fst. rewrite mf_ok_unfold.
  rewrite (add_implied_ok el properties Hp). simpl.
  destruct children; [reflexivity | exact Hc].
Qed.

(** Every scan returns well-formed properties and children. *)
Lemma parse_props_ok el : forall st, scan_ok (fst (parse_props C base_url el st)).
Proof.
  induction el as [s | name attrs contents IH] using Node_tree_ind; intros st.
  - split; reflexivity.
  - set (el := NTag name attrs contents).
    assert (Hrec : forall roots sv st0,
               mf_ok (fst (handle_microformat C base_url roots el sv st0)) = true).
    { intros. apply handle_microformat_with_ok. exact IH. }
    destruct (mf2_root C (el_classes el)) as [|r rs] eqn:Er.
    + rewrite (parse_props_tag C base_url el st eq_refl).
      unfold parse_props_body. rewrite Er. cbv beta zeta.
      match goal with
      | |- context [property_loop ?f [] (extract_text C el) ?ns ?p ?s] =>
          destruct (property_loop_plain f (extract_text C el) ns p s)
            as (v1 & st1 & n1 & ->)
      end.
      cbv beta iota zeta.
      match goal with
      | |- context [property_loop ?f [] (extract_url C base_url el) ?ns ?p ?s] =>
          destruct (property_loop_plain f (extract_url C base_url el) ns p s)
            as (v2 & st2 & n2 & ->)
      end.
      cbv beta iota zeta.
      match goal with
      | |- context [property_loop ?f [] (extract_datetime C el) ?ns ?p ?s] =>
          destruct (property_loop_plain f (extract_datetime C el) ns p s)
            as (v3 & st3 & n3 & ->)
      end.
      cbv beta iota zeta.
      match goal with
      | |- context [property_loop ?f [] (extract_embedded C el) ?ns ?p ?s] =>
          destruct (property_loop_plain f (extract_embedded C el) ns p s)
            as (v4 & st4 & n4 & ->)
      end.
      cbv beta iota zeta.
      apply scan_children_ok; [exact IH|].
      split; [|reflexivity]. simpl fst.
      repeat (apply props_ok_append_all; [|reflexivity]). reflexivity.
    + destruct (parse_props_of_root C base_url el st r rs eq_refl Er)
        as (V1 & V2 & V3 & V4 & st' & H1 & H2 & H3 & H4 & ->).
      assert (HV : forall V, nested_record_of C base_url el V -> value_ok V = true).
      { intros V [sv ->]. simpl. apply Hrec. }
      split; simpl fst; simpl snd.
      * repeat (apply props_ok_append_all; [|now apply HV]). reflexivity.
      * destruct (declares_property C (el_classes el)); [reflexivity|].
        simpl. now rewrite Hrec.
Qed.

Lemma handle_microformat_ok roots el simple_value st :
  mf_ok (fst (handle_microformat C base_url roots el simple_value st)) = true.
Proof.
  apply handle_microformat_with_ok. apply Forall_forall.
  intros c _ st0. apply parse_props_ok.
Qed.

(** The properties of a record are those the scan found, with the implied
    ones added. *)
Lemma handle_microformat_properties roots el simple_value st :
  mf_properties (fst (handle_microformat C base_url roots el simple_value st)) =
  add_implied C base_url el (scanned_properties C base_url el).
Proof.
  unfold handle_microformat, handle_microformat_with, scanned_properties.
  destruct (scan_children _ _ _ _) as [[properties children] st1]. reflexivity.
Qed.
End NonEmptyLists.

Lemma set_if_absent_same k x props :
  dict_get k (set_if_absent k x props) =
  match dict_get k props with Some vs => Some vs | None => x end.
Proof.
  unfold set_if_absent, dict_mem. destruct (dict_get k props) eqn:E.
  - exact E.
  - destruct x; [apply dict_get_set_same | exact E].
Qed.

Lemma set_if_absent_other k k' x props :
  k <> k' -> dict_get k (set_if_absent k' x props) = dict_get k props.
Proof.
  intros Hne. unfold set_if_absent. destruct (dict_mem k' props); [reflexivity|].
  destruct x; [now apply dict_get_set_other | reflexivity].
Qed.

Lemma add_implied_steps C base_url el props :
  add_implied C base_url el props =
  set_if_absent "url" (option_map (map PScalar) (implied_url C el base_url))
    (set_if_absent "photo" (option_map (map PScalar) (implied_photo C el base_url))
       (set_if_absent "name" (Some (map PScalar (implied_name C el))) props)).
Proof.
  unfold add_implied, set_if_absent.
  destruct (implied_photo C el base_url), (implied_url C el base_url); reflexivity.
Qed.

(** C2: the implied name, photo and url are set only when the scan of the
    children left no such key, every other key is what the scan found, and
    in the record and in every record nested in it each key has a list with
    at least one value. *)
Theorem implied_only_when_absent_and_no_empty_list
        (C : Collaborators) (base_url : Url) :
  (forall el, implied_name C el <> []) ->
  (forall el l, implied_photo C el base_url = Some l -> l <> []) ->
  (forall el l, implied_url C el base_url = Some l -> l <> []) ->
  forall (root_class_names : list string) (el : Node)
         (simple_value : option Scalar) (st : State),
    let m := fst (handle_microformat C base_url root_class_names el simple_value st) in
    let scanned := scanned_properties C base_url el in
    dict_get "name" (mf_properties m) =
      match dict_get "name" scanned with
      | Some vs => Some vs
      | None => Some (map PScalar (implied_name C el))
      end /\
    dict_get "photo" (mf_properties m) =
      match dict_get "photo" scanned with
      | Some vs => Some vs
      | None => option_map (map PScalar) (implied_photo C el base_url)
      end /\
    dict_get "url" (mf_properties m) =
      match dict_get "url" scanned with
      | Some vs => Some vs
      | None => option_map (map PScalar) (implied_url C el base_url)
      end /\
    (forall k, k <> "name" -> k <> "photo" -> k <> "url" ->
               dict_get k (mf_properties m) = dict_get k scanned) /\
    (forall k vs, dict_get k (mf_properties m) = Some vs -> vs <> []) /\
    mf_ok m = true.
Proof.
  intros Hname Hphoto Hurl roots el sv st m scanned.
  assert (Hok : mf_ok m = true) by (apply handle_microformat_ok; assumption).
  assert (Hprops : mf_properties m = add_implied C base_url el scanned)
    by apply handle_microformat_properties.
  rewrite Hprops, add_implied_steps.
  repeat split.
  - rewrite !set_if_absent_other by discriminate. apply set_if_absent_same.
  - rewrite set_if_absent_other by discriminate.
    rewrite set_if_absent_same, set_if_absent_other by discriminate. reflexivity.
  - rewrite set_if_absent_same, !set_if_absent_other by discriminate. reflexivity.
  - intros k Hn Hp Hu. now rewrite !set_if_absent_other by assumption.
  - intros k vs Hget. rewrite <- add_implied_steps, <- Hprops in Hget.
    apply dict_get_in in Hget. destruct m as [t properties sh co ch v].
    rewrite mf_ok_unfold in Hok. apply andb_true_iff in Hok as [Hp _].
    simpl in Hget. unfold props_ok in Hp. rewrite forallb_forall in Hp.
    apply (entry_ok_nonempty k). now apply Hp.
  - exact Hok.
Qed.

Lemma sample_name_given el : implied_name Sample.collaborators el <> [].
Proof.
  simpl. unfold Sample.implied_name.
  destruct (Sample.attr_of el "alt"); [discriminate|].
  destruct (Sample.attr_of el "title"); discriminate.
Qed.

Lemma sample_photo_given base el l :
  implied_photo Sample.collaborators el base = Some l -> l <> [].
Proof.
  simpl. unfold Sample.implied_photo.
  destruct (Sample.self_or_only_child "img" "src" el); [|discriminate].
  intros [= <-]. discriminate.
Qed.

Lemma sample_url_given base el l :
  implied_url Sample.collaborators el base = Some l -> l <> [].
Proof.
  simpl. unfold Sample.implied_url.
  destruct (Sample.self_or_only_child "a" "href" el); [|discriminate].
  intros [= <-]. discriminate.
Qed.

Lemma implied_only_when_absent_and_no_empty_list_witness :
  dict_get "name"
    (mf_properties (fst (handle_microformat Sample.collaborators None ["h-card"]
                                            Examples.author_span None None)))
  = Some [PScalar (SStr "Jane")] /\
  dict_get "photo"
    (mf_properties (fst (handle_microformat Sample.collaborators None ["h-card"]
                                            Examples.author_span None None)))
  = None.
Proof.
  destruct (implied_only_when_absent_and_no_empty_list
              Sample.collaborators None
              sample_name_given (sample_photo_given None) (sample_url_given None)
              ["h-card"] Examples.author_span None None)
    as (Hname & Hphoto & _).
  split; [exact Hname | exact Hphoto].
Defined.

(* ===================================================================== *)
(** ** The default date across records *)
(* ===================================================================== *)

Section DefaultDate.
Variable C : Collaborators.
Variable base_url : Url.

Lemma handle_microformat_date roots el simple_value st :
  snd (handle_microformat C base_url roots el simple_value st) = date_left_by C base_url el.
Proof.
  unfold handle_microformat, handle_microformat_with, date_left_by.
  destruct (scan_children _ _ _ _) as [[properties children] st1]. reflexivity.
Qed.

(** After the scan of an element with root classnames the default date is
    the one the scan inside that element left: the date the enclosing record
    carried before is gone, and a date found inside is carried on. *)
Lemma parse_props_root_date el st :
  is_tag el = true ->
  mf2_root C (el_classes el) <> [] ->
  snd (parse_props C base_url el st) = date_left_by C base_url el.
Proof.
  intros Htag Hroots. rewrite parse_props_tag by assumption.
  unfold parse_props_body, declares_property.
  destruct (mf2_root C (el_classes el)) as [|r rs]; [congruence|].
  destruct (mf2_text C (el_classes el)), (mf2_url C (el_classes el)),
    (mf2_datetime C (el_classes el)), (mf2_embedded C (el_classes el));
    cbv beta zeta;
    repeat (rewrite property_loop_closed by (intros; apply handle_microformat_forgets);
            cbv beta iota zeta);
    unfold date_after; cbn [app fst snd];
    try (destruct (handle_microformat C base_url (r :: rs) el None _) as [m st1] eqn:E;
         cbn [snd];
         change st1 with (snd (m, st1)); rewrite <- E);
    apply handle_microformat_date.
Qed.
End DefaultDate.

(* ===================================================================== *)
(** ** When [parse] returns *)
(* ===================================================================== *)

Section Totality.
Variable C : Collaborators.

Lemma fetch_not_needed url d :
  fetch_if_needed C url (Some d) = Ok (initial_url url, Some d).
Proof.
  unfold fetch_if_needed, initial_url.
  destruct url as [u|]; [|reflexivity]. destruct (Py.truthy u); reflexivity.
Qed.


End Totality.

(* ===================================================================== *)
(** ** Helpers that return, and enough calls left *)
(* ===================================================================== *)




Section RaisingFacts.
Variable C : Collaborators.
Variable F : Failures.
Variable base_url : Url.















(** A walk with no call left raises. *)
Lemma raising_parse_el_no_frames el ctx st :
  Raising.parse_el C F base_url el 0 ctx st = Raise RecursionError.
Proof. destruct el; reflexivity. Qed.
End RaisingFacts.




(** An exception of a helper leaves [parse]: the URL extractor on an
    [href] that [urljoin] rejects. *)
Lemma parse_raises_when_helper_raises :
  Raising.parse Sample.collaborators Sample.failures 6
                (Some (DocSoup Examples.bad_url_card)) (Some "http://example.com/")
  = Raise (ValueError "Invalid IPv6 URL").
Proof. reflexivity. Qed.

(** A document nested deeper than the interpreter allows makes the walk
    raise. *)
Lemma nest_is_tag n : is_tag (nest n) = true.
Proof. destruct n; reflexivity. Qed.

Lemma raising_parse_el_single C F base_url name attrs child frames ctx st :
  is_tag child = true ->
  potential_microformats C (NTag name attrs [child]) = [] ->
  Raising.parse_el C F base_url (NTag name attrs [child]) (S frames) ctx st =
  (r <- Raising.parse_el C F base_url child frames ctx st ;; Ok r).
Proof.
  intros Htag Hroot. destruct child as [s | n a k]; [discriminate|].
  cbn [Raising.parse_el]. rewrite Hroot.
  destruct frames; [reflexivity|]. cbn [bind].
  match goal with
  | |- bind ?x _ = bind ?x _ => destruct x as [[ctx1 st1]|e]; reflexivity
  end.
Qed.

Lemma walk_raises_beyond_recursion_limit C F base_url n :
  mf2_root C (AList []) = [] ->
  forall frames ctx st,
    frames <= n ->
    Raising.parse_el C F base_url (nest n) frames ctx st = Raise RecursionError.
Proof.
  intros Hroot. induction n as [|n IH]; intros frames ctx st Hle.
  - assert (frames = 0) as -> by lia. reflexivity.
  - destruct frames as [|frames]; [reflexivity|].
    cbn [nest]. rewrite raising_parse_el_single; [|apply nest_is_tag|exact Hroot].
    rewrite IH by lia. reflexivity.
Qed.

Lemma parse_raises_beyond_recursion_limit :
  Raising.parse Sample.collaborators Sample.no_failures 3
                (Some (DocSoup (nest 3))) None
  = Raise RecursionError /\
  Raising.parse Sample.collaborators Sample.no_failures 8
                (Some (DocSoup (nest 3))) None
  = Ok (FullDict (mkParsed [] [] None)).
Proof. split; reflexivity. Qed.

(** The same for the [href] of a link with a [rel], joined to the URL of
    the document. *)
Lemma parse_raises_on_rejected_link_href :
  parse Sample.collaborators (Some (DocSoup Examples.bad_link))
        (Some "http://example.com/")
  = Raise (ValueError "Invalid IPv6 URL").
Proof. reflexivity. Qed.

(* ===================================================================== *)
(** ** Properties that hold of every record, at every depth *)
(* ===================================================================== *)

Lemma mf_all_unfold check as_value t properties sh co children v :
  mf_all check as_value (mkMicroformat t properties sh co children v) =
  check as_value (mkMicroformat t properties sh co children v) &&
  (props_all check properties &&
   match children with None => true | Some l => forallb (mf_all check false) l end).
Proof. reflexivity. Qed.

Lemma props_all_extend check k xs props :
  props_all check props = true -> forallb (value_all check) xs = true ->
  props_all check (dict_extend k xs props) = true.
Proof.
  intros Hp Hxs. induction props as [|[k' v'] props IH].
  - unfold dict_extend, dict_get_or, props_all. simpl. now rewrite Hxs.
  - rewrite dict_extend_cons. unfold props_all in *. simpl in Hp.
    apply andb_true_iff in Hp as [He Hp].
    destruct (String.eqb k k'); simpl.
    + now rewrite forallb_app, He, Hxs, Hp.
    + now rewrite He, (IH Hp).
Qed.

Lemma props_all_append_all check V names props :
  props_all check props = true -> value_all check V = true ->
  props_all check (append_all V names props) = true.
Proof.
  revert props. induction names as [|n names IH]; intros props Hp HV; [assumption|].
  change (append_all V (n :: names) props)
    with (append_all V names (dict_append n V props)).
  apply IH; [|assumption].
  apply (props_all_extend check n [V] props Hp). simpl. now rewrite HV.
Qed.

Lemma props_all_set_scalars check k (l : list Scalar) props :
  props_all check props = true ->
  props_all check (dict_set k (map PScalar l) props) = true.
Proof.
  intros Hp.
  assert (Hl : forallb (value_all check) (map PScalar l) = true)
    by (induction l; simpl; auto).
  induction props as [|[k' v'] props IH]; unfold props_all in *; simpl.
  - now rewrite Hl.
  - simpl in Hp. apply andb_true_iff in Hp as [He Hp].
    destruct (String.eqb k k'); simpl.
    + now rewrite Hl, Hp.
    + now rewrite He, (IH Hp).
Qed.

Section EveryRecord.
Variable C : Collaborators.
Variable base_url : Url.
Variable check : bool -> Microformat -> bool.

(** The check holds of whatever [handle_microformat] builds around a
    non-empty list of root classnames. *)
Hypothesis check_built :
  forall roots el properties children simple_value,
    roots <> [] ->
    check (is_some simple_value)
          (build_microformat C roots el properties children simple_value) = true.

Lemma merge_all acc child :
  scan_all check acc -> scan_all check child -> scan_all check (merge acc child).
Proof.
  intros [Hp Hc] [Hp' Hc']. destruct acc as [props children].
  destruct child as [props' children']. unfold merge, scan_all. simpl in *.
  split; [|now rewrite forallb_app, Hc, Hc'].
  clear Hc Hc' children children'. revert props Hp.
  induction props' as [|[k vs] props' IH]; intros props Hp; [assumption|].
  unfold props_all in Hp'. simpl in Hp'. apply andb_true_iff in Hp' as [He Hp'].
  simpl. apply IH; [assumption|]. now apply props_all_extend.
Qed.

Lemma scan_children_all pp contents :
  Forall (fun c => forall st, scan_all check (fst (pp c st))) contents ->
  forall acc st, scan_all check acc ->
                 scan_all check (fst (scan_children pp contents acc st)).
Proof.
  induction 1 as [|c cs Hc _ IH]; intros acc st Hacc; [assumption|].
  destruct c as [s | n a k]; cbn [scan_children].
  - now apply IH.
  - destruct (pp (NTag n a k) st) as [found st1] eqn:E.
    apply IH. apply merge_all; [assumption|].
    specialize (Hc st). now rewrite E in Hc.
Qed.

Lemma add_implied_all el props :
  props_all check props = true ->
  props_all check (add_implied C base_url el props) = true.
Proof.
  intros Hp. rewrite add_implied_steps. unfold set_if_absent.
  assert (H1 : props_all check
                 (if dict_mem "name" props then props
                  else dict_set "name" (map PScalar (implied_name C el)) props) = true).
  { destruct (dict_mem "name" props); [assumption | now apply props_all_set_scalars]. }
  revert H1. generalize (if dict_mem "name" props then props
                         else dict_set "name" (map PScalar (implied_name C el)) props).
  intros p1 H1.
  assert (H2 : props_all check
                 (if dict_mem "photo" p1 then p1
                  else match option_map (map PScalar) (implied_photo C el base_url) with
                       | Some l => dict_set "photo" l p1
                       | None => p1
                       end) = true).
  { destruct (dict_mem "photo" p1); [assumption|].
    destruct (implied_photo C el base_url); simpl;
      [now apply props_all_set_scalars | assumption]. }
  revert H2. generalize (if dict_mem "photo" p1 then p1
                         else match option_map (map PScalar) (implied_photo C el base_url) with
                              | Some l => dict_set "photo" l p1
                              | None => p1
                              end).
  intros p2 H2.
  destruct (dict_mem "url" p2); [assumption|].
  destruct (implied_url C el base_url); simpl;
    [now apply props_all_set_scalars | assumption].
Qed.

Lemma handle_microformat_with_all pp roots el contents simple_value st :
  roots <> [] ->
  Forall (fun c => forall st, scan_all check (fst (pp c st))) contents ->
  mf_all check (is_some simple_value)
         (fst (handle_microformat_with C base_url pp roots el contents simple_value st))
  = true.
Proof.
  intros Hroots Hall. unfold handle_microformat_with.
  pose proof (scan_children_all pp contents Hall ([], []) None) as Hscan.
  destruct (scan_children pp contents ([], []) None) as [[properties children] st1].
  destruct Hscan as [Hp Hc]; [split; reflexivity|]. simpl in Hp, Hc.
  simpl fst.
  pose proof (check_built roots el (add_implied C base_url el properties)
                          children simple_value Hroots) as Hcheck.
  unfold build_microformat in *. rewrite mf_all_unfold, Hcheck.
  rewrite (add_implied_all el properties Hp). simpl.
  destruct children; [reflexivity | exact Hc].
Qed.

(** Whatever a scan returns, the check holds in it throughout. *)
Lemma parse_props_all el : forall st, scan_all check (fst (parse_props C base_url el st)).
Proof.
  induction el as [s | name attrs contents IH] using Node_tree_ind; intros st.
  - split; reflexivity.
  - set (el := NTag name attrs contents).
    assert (Hrec : forall roots sv st0,
               roots <> [] ->
               mf_all check (is_some sv)
                      (fst (handle_microformat C base_url roots el sv st0)) = true).
    { intros. now apply handle_microformat_with_all. }
    destruct (mf2_root C (el_classes el)) as [|r rs] eqn:Er.
    + rewrite (parse_props_tag C base_url el st eq_refl).
      unfold parse_props_body. rewrite Er. cbv beta zeta.
      repeat match goal with
             | |- context [property_loop ?f [] ?e ?ns ?p ?s] =>
                 let v := fresh "v" in
                 let st' := fresh "st" in
                 let n := fresh "n" in
                 destruct (property_loop_plain f e ns p s) as (v & st' & n & ->);
                 cbv beta iota zeta
             end.
      apply scan_children_all; [exact IH|].
      split; [|reflexivity]. simpl fst.
      repeat (apply props_all_append_all; [|reflexivity]). reflexivity.
    + destruct (parse_props_of_root C base_url el st r rs eq_refl Er)
        as (V1 & V2 & V3 & V4 & st' & H1 & H2 & H3 & H4 & ->).
      assert (HV : forall V, nested_record_of C base_url el V ->
                             value_all check V = true).
      { intros V [sv ->]. simpl. rewrite Er.
        apply (Hrec (r :: rs) (Some sv)). discriminate. }
      split; simpl fst; simpl snd.
      * repeat (apply props_all_append_all; [|now apply HV]). reflexivity.
      * destruct (declares_property C (el_classes el)); [reflexivity|].
        simpl. rewrite (Hrec (r :: rs) None); [reflexivity | discriminate].
Qed.

Lemma handle_microformat_all roots el simple_value st :
  roots <> [] ->
  mf_all check (is_some simple_value)
         (fst (handle_microformat C base_url roots el simple_value st)) = true.
Proof.
  intros Hroots. apply handle_microformat_with_all; [assumption|].
  apply Forall_forall. intros c _ st0. apply parse_props_all.
Qed.

Lemma maximal_roots_carry_root doc e :
  In e (spec_maximal_roots C doc) -> carries_root C e = true.
Proof.
  induction doc as [s | name attrs contents IH] using Node_tree_ind; [intros []|].
  cbn [spec_maximal_roots].
  destruct (carries_root C (NTag name attrs contents)) eqn:E.
  - intros [<-|[]]. exact E.
  - intros Hin. apply in_flat_map in Hin as (c & Hc & He).
    rewrite Forall_forall in IH. now apply (IH c).
Qed.

Lemma top_level_items_all doc :
  forallb (mf_all check false) (top_level_items C base_url doc) = true.
Proof.
  rewrite top_level_items_maximal_roots. apply forallb_forall.
  intros m Hm. apply in_map_iff in Hm as (e & <- & He).
  apply maximal_roots_carry_root, carries_root_true in He.
  unfold record_of. now apply (handle_microformat_all _ e None None).
Qed.

End EveryRecord.

Lemma parsed_items_all C check doc url self :
  (forall roots el properties children simple_value,
      roots <> [] ->
      check (is_some simple_value)
            (build_microformat C roots el properties children simple_value) = true) ->
  Parser_init C doc url = Ok self ->
  forallb (mf_all check false) (items (parsed__ self)) = true.
Proof.
  intros Hbuilt Hinit. destruct (doc__ self) as [d|] eqn:Ed.
  - pose proof (Parser_init_document C doc url self d Hinit Ed) as Hp.
    unfold Parser_parse in Hp. apply for_each_parse_rels_items in Hp.
    rewrite Hp. simpl. now apply top_level_items_all.
  - unfold Parser_init in Hinit.
    destruct (fetch_if_needed C url (doc_of_arg C doc)) as [[u0 d0]|];
      cbn [bind] in Hinit; [|discriminate].
    destruct (apply_base C u0 d0) as [u1|]; cbn [bind] in Hinit; [|discriminate].
    destruct d0 as [d0|].
    + destruct (Parser_parse C u1 _ _); cbn [bind] in Hinit; [|discriminate].
      injection Hinit as <-. discriminate Ed.
    + injection Hinit as <-. reflexivity.
Qed.

(** What [mf_all] says, one level down. *)
Lemma mf_all_inv check as_value m :
  mf_all check as_value m = true ->
  check as_value m = true /\
  (forall k vs r, In (k, vs) (mf_properties m) -> In (PRecord r) vs ->
                  mf_all check true r = true) /\
  (forall l r, mf_children m = Some l -> In r l -> mf_all check false r = true).
Proof.
  destruct m as [t properties sh co children v]. rewrite mf_all_unfold.
  intros H. apply andb_true_iff in H as [Hc H]. apply andb_true_iff in H as [Hp Hch].
  split; [assumption|]. split.
  - intros k vs r Hin Hr. simpl in Hin. unfold props_all in Hp.
    rewrite forallb_forall in Hp. specialize (Hp _ Hin). simpl in Hp.
    rewrite forallb_forall in Hp. exact (Hp _ Hr).
  - intros l r Hl Hr. simpl in Hl. subst children.
    rewrite forallb_forall in Hch. now apply Hch.
Qed.

Lemma has_type_built C roots el properties children simple_value :
  roots <> [] ->
  has_type (is_some simple_value)
           (build_microformat C roots el properties children simple_value) = true.
Proof. intros H. unfold has_type. simpl. destruct roots; congruence. Qed.

Lemma value_iff_property_built C roots el properties children simple_value :
  roots <> [] ->
  value_iff_property (is_some simple_value)
                     (build_microformat C roots el properties children simple_value)
  = true.
Proof. intros _. unfold value_iff_property. simpl. apply Bool.eqb_reflx. Qed.

Lemma children_not_empty_built C roots el properties children simple_value :
  roots <> [] ->
  children_not_empty (is_some simple_value)
                     (build_microformat C roots el properties children simple_value)
  = true.
Proof. intros _. unfold children_not_empty. simpl. destruct children; reflexivity. Qed.

(** X1: every record of a parse result has at least one type, the top-level
    items as well as every record nested in them as a property value or as a
    child. *)
Theorem every_record_has_a_type
        (C : Collaborators) (doc : option DocArg) (url : option string)
        (self : Parser) :
  Parser_init C doc url = Ok self ->
  forallb (mf_all has_type false) (items (parsed__ self)) = true /\
  forall m, In m (items (parsed__ self)) ->
    mf_type m <> [] /\
    (forall k vs r, In (k, vs) (mf_properties m) -> In (PRecord r) vs ->
                    mf_type r <> []) /\
    (forall l r, mf_children m = Some l -> In r l -> mf_type r <> []).
Proof.
  intros Hinit.
  pose proof (parsed_items_all C has_type doc url self (has_type_built C) Hinit) as Hall.
  split; [exact Hall|]. intros m Hm. rewrite forallb_forall in Hall.
  assert (Hty : forall b r, mf_all has_type b r = true -> mf_type r <> []).
  { intros b r Hr. apply mf_all_inv in Hr as [Hr _]. unfold has_type in Hr.
    destruct (mf_type r); [discriminate | discriminate]. }
  destruct (mf_all_inv _ _ _ (Hall m Hm)) as (_ & Hp & Hc).
  split; [exact (Hty _ _ (Hall m Hm))|]. split.
  - intros k vs r Hin Hr. exact (Hty _ _ (Hp k vs r Hin Hr)).
  - intros l r Hl Hr. exact (Hty _ _ (Hc l r Hl Hr)).
Qed.

Lemma every_record_has_a_type_witness :
  exists self,
    Parser_init Sample.collaborators (Some (DocSoup Examples.entry)) None = Ok self /\
    forallb (mf_all has_type false) (items (parsed__ self)) = true.
Proof.
  eexists. split; [reflexivity|].
  exact (proj1 (every_record_has_a_type
                  Sample.collaborators (Some (DocSoup Examples.entry)) None _ eq_refl)).
Defined.

(** X2: a record carries a [value] exactly when it is the value of a
    property: a top-level item never has one, a record nested as a property
    value always has one, a child record never has one, at every depth. *)
Theorem value_only_on_property_records
        (C : Collaborators) (doc : option DocArg) (url : option string)
        (self : Parser) :
  Parser_init C doc url = Ok self ->
  forallb (mf_all value_iff_property false) (items (parsed__ self)) = true /\
  forall m, In m (items (parsed__ self)) ->
    mf_value m = None /\
    (forall k vs r, In (k, vs) (mf_properties m) -> In (PRecord r) vs ->
                    mf_value r <> None) /\
    (forall l r, mf_children m = Some l -> In r l -> mf_value r = None).
Proof.
  intros Hinit.
  pose proof (parsed_items_all C value_iff_property doc url self
                               (value_iff_property_built C) Hinit) as Hall.
  split; [exact Hall|]. intros m Hm. rewrite forallb_forall in Hall.
  assert (Hno : forall r, mf_all value_iff_property false r = true -> mf_value r = None).
  { intros r Hr. apply mf_all_inv in Hr as [Hr _]. unfold value_iff_property in Hr.
    destruct (mf_value r); [discriminate | reflexivity]. }
  assert (Hyes : forall r, mf_all value_iff_property true r = true -> mf_value r <> None).
  { intros r Hr. apply mf_all_inv in Hr as [Hr _]. unfold value_iff_property in Hr.
    destruct (mf_value r); [discriminate | discriminate]. }
  destruct (mf_all_inv _ _ _ (Hall m Hm)) as (_ & Hp & Hc).
  split; [exact (Hno _ (Hall m Hm))|]. split.
  - intros k vs r Hin Hr. exact (Hyes _ (Hp k vs r Hin Hr)).
  - intros l r Hl Hr. exact (Hno _ (Hc l r Hl Hr)).
Qed.

Lemma value_only_on_property_records_witness :
  exists self,
    Parser_init Sample.collaborators (Some (DocSoup Examples.entry)) None = Ok self /\
    forallb (mf_all value_iff_property false) (items (parsed__ self)) = true.
Proof.
  eexists. split; [reflexivity|].
  exact (proj1 (value_only_on_property_records
                  Sample.collaborators (Some (DocSoup Examples.entry)) None _ eq_refl)).
Defined.

(** X3: the [children] key of a record is never an empty list: it is left
    out when the scan found no child record, in the items and in every
    record nested in them. *)
Theorem children_key_never_empty
        (C : Collaborators) (doc : option DocArg) (url : option string)
        (self : Parser) :
  Parser_init C doc url = Ok self ->
  forallb (mf_all children_not_empty false) (items (parsed__ self)) = true /\
  forall m, In m (items (parsed__ self)) ->
    mf_children m <> Some [] /\
    (forall k vs r, In (k, vs) (mf_properties m) -> In (PRecord r) vs ->
                    mf_children r <> Some []) /\
    (forall l r, mf_children m = Some l -> In r l -> mf_children r <> Some []).
Proof.
  intros Hinit.
  pose proof (parsed_items_all C children_not_empty doc url self
                               (children_not_empty_built C) Hinit) as Hall.
  split; [exact Hall|]. intros m Hm. rewrite forallb_forall in Hall.
  assert (Hne : forall b r, mf_all children_not_empty b r = true ->
                            mf_children r <> Some []).
  { intros b r Hr. apply mf_all_inv in Hr as [Hr _]. unfold children_not_empty in Hr.
    destruct (mf_children r) as [[|]|]; [discriminate | discriminate | discriminate]. }
  destruct (mf_all_inv _ _ _ (Hall m Hm)) as (_ & Hp & Hc).
  split; [exact (Hne _ _ (Hall m Hm))|]. split.
  - intros k vs r Hin Hr. exact (Hne _ _ (Hp k vs r Hin Hr)).
  - intros l r Hl Hr. exact (Hne _ _ (Hc l r Hl Hr)).
Qed.

Lemma children_key_never_empty_witness :
  exists self,
    Parser_init Sample.collaborators (Some (DocSoup Examples.entry)) None = Ok self /\
    forallb (mf_all children_not_empty false) (items (parsed__ self)) = true.
Proof.
  eexists. split; [reflexivity|].
  exact (proj1 (children_key_never_empty
                  Sample.collaborators (Some (DocSoup Examples.entry)) None _ eq_refl)).
Defined.

(* ===================================================================== *)
(** ** The default date inside one record *)
(* ===================================================================== *)

Lemma scan_children_keeps_date pp contents :
  Forall (fun c => forall st, snd (pp c st) = st) contents ->
  forall acc st, snd (scan_children pp contents acc st) = st.
Proof.
  induction 1 as [|c cs Hc _ IH]; intros acc st; [reflexivity|].
  destruct c as [s | n a k]; cbn [scan_children]; [apply IH|].
  specialize (Hc st). destruct (pp (NTag n a k) st) as [found st1].
  simpl in Hc. subst st1. apply IH.
Qed.

Lemma date_neutral_keeps_date C base_url el :
  date_neutral C el = true ->
  forall st, snd (parse_props C base_url el st) = st.
Proof.
  induction el as [s | name attrs contents IH] using Node_tree_ind; intros Hn st.
  - reflexivity.
  - cbn [date_neutral] in Hn.
    set (el := NTag name attrs contents) in *.
    rewrite (parse_props_tag C base_url el st eq_refl).
    unfold parse_props_body. revert Hn.
    destruct (mf2_root C (el_classes el)) as [|r rs]; [|discriminate].
    destruct (mf2_datetime C (el_classes el)) as [|d ds]; [|discriminate].
    intros Hn.
    assert (Hkids : Forall (fun c => forall st, snd (parse_props C base_url c st) = st)
                           contents).
    { rewrite forallb_forall in Hn. rewrite Forall_forall in *.
      intros c Hc. apply IH; auto. }
    destruct (mf2_text C (el_classes el)), (mf2_url C (el_classes el)),
      (mf2_embedded C (el_classes el));
      cbv beta zeta;
      repeat (rewrite property_loop_closed by (intros; apply handle_microformat_forgets);
              cbv beta iota zeta);
      apply scan_children_keeps_date; exact Hkids.
Qed.

(** X4: elements that neither carry root classnames nor declare a datetime
    property leave the default date alone: after the scan of such a subtree
    the date is the one it was before, and so it is after the loop over a
    list of such elements. *)
Theorem default_date_untouched_without_datetime
        (C : Collaborators) (base_url : Url) (el : Node) :
  date_neutral C el = true ->
  (forall st, snd (parse_props C base_url el st) = st) /\
  (forall acc st,
      snd (scan_children (parse_props C base_url) (el_contents el) acc st) = st).
Proof.
  intros Hn. split; [now apply date_neutral_keeps_date|].
  intros acc st. apply scan_children_keeps_date. apply Forall_forall.
  intros c Hc. apply date_neutral_keeps_date.
  destruct el as [s | name attrs contents]; [destruct Hc|].
  cbn [date_neutral] in Hn. simpl in Hc.
  destruct (mf2_root C _); [|discriminate].
  destruct (mf2_datetime C _); [|discriminate].
  rewrite forallb_forall in Hn. now apply Hn.
Qed.

Lemma default_date_untouched_without_datetime_witness :
  snd (parse_props Sample.collaborators None Examples.jo_span (Some "2020-01-01"))
  = Some "2020-01-01".
Proof.
  exact (proj1 (default_date_untouched_without_datetime
                  Sample.collaborators None Examples.jo_span eq_refl)
               (Some "2020-01-01")).
Defined.

(** X5: the default date of the enclosing record never reaches a nested
    record: for an element with root classnames that declares no datetime
    property, the scan returns the same properties, the same children and
    the same default date whatever the default date was before. *)
Theorem nested_record_ignores_outer_date
        (C : Collaborators) (base_url : Url) (el : Node) (st st' : State) :
  is_tag el = true ->
  mf2_root C (el_classes el) <> [] ->
  mf2_datetime C (el_classes el) = [] ->
  parse_props C base_url el st = parse_props C base_url el st'.
Proof.
  intros Htag Hroots Hdt. rewrite !parse_props_tag by assumption.
  unfold parse_props_body, declares_property. rewrite Hdt.
  destruct (mf2_root C (el_classes el)) as [|r rs]; [congruence|].
  destruct (mf2_text C (el_classes el)), (mf2_url C (el_classes el)),
    (mf2_embedded C (el_classes el));
    cbv beta zeta;
    repeat (rewrite property_loop_closed by (intros; apply handle_microformat_forgets);
            cbv beta iota zeta);
    reflexivity.
Qed.

Lemma nested_record_ignores_outer_date_witness :
  parse_props Sample.collaborators None Examples.author_span (Some "2020-01-01")
  = parse_props Sample.collaborators None Examples.author_span None.
Proof.
  apply (nested_record_ignores_outer_date
           Sample.collaborators None Examples.author_span (Some "2020-01-01") None
           eq_refl).
  - discriminate.
  - reflexivity.
Defined.

(* ===================================================================== *)
(** ** The default date after a nested record *)
(* ===================================================================== *)

(** C1: the default date of a record does not survive a nested record.
    Whatever date the enclosing record carries when its scan reaches an
    element with root classnames, afterwards the default date is the one the
    scan inside that element left behind: none at all when nothing inside it
    declares a datetime property or is a record, so the carried date is
    lost, and otherwise a date of the nested record, which the enclosing
    record then uses; the elements that follow are scanned from that
    date. *)
Theorem default_date_lost_across_nested_record
        (C : Collaborators) (base_url : Url) (el : Node) (st : State) :
  is_tag el = true ->
  mf2_root C (el_classes el) <> [] ->
  snd (parse_props C base_url el st) = date_left_by C base_url el /\
  (forallb (date_neutral C) (el_contents el) = true ->
   snd (parse_props C base_url el st) = None) /\
  (forall rest acc,
      scan_children (parse_props C base_url) (el :: rest) acc st =
      scan_children (parse_props C base_url) rest
                    (merge acc (fst (parse_props C base_url el st)))
                    (date_left_by C base_url el)).
Proof.
  intros Htag Hroots.
  pose proof (parse_props_root_date C base_url el st Htag Hroots) as Hdate.
  split; [exact Hdate|]. split.
  - intros Hkids. rewrite Hdate. unfold date_left_by.
    apply scan_children_keeps_date. apply Forall_forall. intros c Hc.
    apply date_neutral_keeps_date. rewrite forallb_forall in Hkids. now apply Hkids.
  - intros rest acc. destruct el as [s | name attrs contents]; [discriminate|].
    cbn [scan_children]. rewrite <- Hdate.
    destruct (parse_props C base_url (NTag name attrs contents) st) as [found st1].
    reflexivity.
Qed.

Lemma default_date_lost_across_nested_record_witness :
  snd (parse_props Sample.collaborators None Examples.location_card (Some "2020-01-01"))
  = None /\
  snd (parse_props Sample.collaborators None Examples.organizer_card None)
  = Some "1990-05-05" /\
  map (fun c => snd (parse_props Sample.collaborators None c (Some "2020-01-01")))
      (el_contents Examples.event_with_nested_card)
  = [Some "2020-01-01"; None; Some "2020-01-01"].
Proof.
  split; [|split].
  - apply (default_date_lost_across_nested_record
             Sample.collaborators None Examples.location_card (Some "2020-01-01")
             eq_refl); [discriminate | reflexivity].
  - exact (proj1 (default_date_lost_across_nested_record
                    Sample.collaborators None Examples.organizer_card None
                    eq_refl ltac:(discriminate))).
  - reflexivity.
Defined.

(* ===================================================================== *)
(** ** The rel pass over a whole document *)
(* ===================================================================== *)

Section RelPass.
Variable C : Collaborators.
Variable base_url : Url.

Lemma parse_rels_adds el parsed parsed' :
  parse_rels C base_url el parsed = Ok parsed' ->
  (forall token,
      dict_get_or token [] (rels parsed') =
      dict_get_or token [] (rels parsed) ++ rel_urls C base_url token el) /\
  alternates_or_nil parsed' = alternates_or_nil parsed ++ alt_entries C base_url el.
Proof.
  unfold parse_rels, rel_urls, alt_entries, alternates_or_nil.
  destruct (get_attr C el "rel") as [rel_attrs|].
  - destruct (urljoin C base_url (el_get_or el "href" (AStr ""))) as [u|e];
      cbn [bind]; [|discriminate].
    destruct (py_in "alternate" rel_attrs); cbn [negb]; intros [= <-]; simpl.
    + split; [intros; now rewrite app_nil_r | reflexivity].
    + split; [intros; apply fold_dict_append_get | now rewrite app_nil_r].
  - intros [= <-]. split; [intros|]; now rewrite app_nil_r.
Qed.

Lemma for_each_parse_rels_adds els parsed parsed' :
  for_each (parse_rels C base_url) els parsed = Ok parsed' ->
  (forall token,
      dict_get_or token [] (rels parsed') =
      dict_get_or token [] (rels parsed) ++ flat_map (rel_urls C base_url token) els) /\
  alternates_or_nil parsed' =
  alternates_or_nil parsed ++ flat_map (alt_entries C base_url) els.
Proof.
  revert parsed. induction els as [|el els IH]; intros parsed; cbn [for_each flat_map].
  - intros [= <-]. split; [intros|]; now rewrite app_nil_r.
  - destruct (parse_rels C base_url el parsed) as [p1|] eqn:E; cbn [bind]; [|discriminate].
    intros H. apply IH in H as [Hr Ha]. apply parse_rels_adds in E as [Hr1 Ha1].
    split.
    + intros token. now rewrite Hr, Hr1, app_assoc.
    + now rewrite Ha, Ha1, app_assoc.
Qed.

Lemma for_each_app {A S} (body : A -> S -> Result S) l1 l2 s :
  for_each body (l1 ++ l2) s = (s1 <- for_each body l1 s ;; for_each body l2 s1).
Proof.
  revert s. induction l1 as [|x l1 IH]; intros s; [reflexivity|].
  simpl. destruct (body x s); simpl; [apply IH | reflexivity].
Qed.

Lemma fold_dict_append_nonempty {A} (x : A) keys (d : Dict (list A)) :
  (forall k vs, In (k, vs) d -> vs <> []) ->
  forall k vs, In (k, vs) (fold_left (fun acc key => dict_append key x acc) keys d) ->
               vs <> [].
Proof.
  revert d. induction keys as [|a keys IH]; intros d Hd; [exact Hd|].
  simpl. apply IH. intros k vs Hin. unfold dict_append in Hin.
  apply in_dict_set in Hin as [[= -> ->]|Hin]; [|now apply (Hd k)].
  destruct (dict_get_or a [] d); discriminate.
Qed.

Lemma parse_rels_well_formed el parsed parsed' :
  parse_rels C base_url el parsed = Ok parsed' ->
  rels_well_formed parsed -> rels_well_formed parsed'.
Proof.
  unfold parse_rels, rels_well_formed. intros H [Hr Ha].
  destruct (get_attr C el "rel") as [rel_attrs|]; [|injection H as <-; auto].
  destruct (urljoin C base_url (el_get_or el "href" (AStr ""))) as [u|e];
    cbn [bind] in H; [|discriminate].
  destruct (py_in "alternate" rel_attrs); cbn [negb] in H; injection H as <-; simpl.
  - split; [assumption|]. intros [= E]. now destruct (alternates parsed) as [[|]|].
  - split; [|assumption]. now apply fold_dict_append_nonempty.
Qed.

Lemma for_each_parse_rels_well_formed els parsed parsed' :
  for_each (parse_rels C base_url) els parsed = Ok parsed' ->
  rels_well_formed parsed -> rels_well_formed parsed'.
Proof.
  revert parsed. induction els as [|el els IH]; intros parsed; cbn [for_each].
  - now intros [= <-].
  - destruct (parse_rels C base_url el parsed) as [p1|] eqn:E; cbn [bind]; [|discriminate].
    intros H Hwf. apply (IH p1 H). now apply (parse_rels_well_formed el parsed).
Qed.

(** A pass that returned has resolved the [href] of every element whose
    [rel] the helper found. *)
Lemma for_each_parse_rels_resolved els parsed parsed' el rel_attrs :
  for_each (parse_rels C base_url) els parsed = Ok parsed' ->
  In el els ->
  get_attr C el "rel" = Some rel_attrs ->
  exists url, urljoin C base_url (el_get_or el "href" (AStr "")) = Ok url.
Proof.
  revert parsed. induction els as [|x els IH]; intros parsed Hrun Hin Hrel; [destruct Hin|].
  cbn [for_each] in Hrun.
  destruct (parse_rels C base_url x parsed) as [p1|] eqn:E; cbn [bind] in Hrun;
    [|discriminate].
  destruct Hin as [->|Hin]; [|now apply (IH p1)].
  unfold parse_rels in E. rewrite Hrel in E.
  destruct (urljoin C base_url (el_get_or el "href" (AStr ""))) as [u|];
    [eauto | discriminate E].
Qed.

(** What an element with a token list and a resolved [href] adds. *)
Lemma rel_urls_alternate el tokens token :
  get_attr C el "rel" = Some (AList tokens) ->
  In "alternate" tokens ->
  rel_urls C base_url token el = [].
Proof.
  intros Hrel Hin. unfold rel_urls. rewrite Hrel.
  apply py_in_list in Hin. now rewrite Hin.
Qed.

Lemma alt_entries_alternate el tokens url :
  get_attr C el "rel" = Some (AList tokens) ->
  urljoin C base_url (el_get_or el "href" (AStr "")) = Ok url ->
  In "alternate" tokens ->
  alt_entries C base_url el = [alternate_entry C el (AList tokens) url].
Proof.
  intros Hrel Hurl Hin. unfold alt_entries. rewrite Hrel, Hurl.
  apply py_in_list in Hin. now rewrite Hin.
Qed.

Lemma rel_urls_plain el tokens url token :
  get_attr C el "rel" = Some (AList tokens) ->
  urljoin C base_url (el_get_or el "href" (AStr "")) = Ok url ->
  ~ In "alternate" tokens ->
  rel_urls C base_url token el = repeat url (count_occ string_dec tokens token).
Proof.
  intros Hrel Hurl Hout. unfold rel_urls. rewrite Hrel, Hurl.
  destruct (py_in "alternate" (AList tokens)) eqn:E; [|reflexivity].
  apply py_in_list in E. contradiction.
Qed.

Lemma alt_entries_plain el tokens :
  get_attr C el "rel" = Some (AList tokens) ->
  ~ In "alternate" tokens ->
  alt_entries C base_url el = [].
Proof.
  intros Hrel Hout. unfold alt_entries. rewrite Hrel.
  destruct (py_in "alternate" (AList tokens)) eqn:E; [|reflexivity].
  apply py_in_list in E. contradiction.
Qed.
End RelPass.

(** C6: what the [a] and [link] elements with a [rel] attribute contribute
    to a parse.  In the result of [Parser.parse] the list of every rel token
    and the list of alternates are what they were before, followed by the
    contributions of these elements in document order, and the contribution
    of one element goes to one side only: an element whose rel tokens
    contain "alternate" adds exactly one entry to the alternates, with its
    resolved URL, and nothing to the list of any token; an element without
    "alternate" adds nothing to the alternates and its resolved URL to the
    list of each of its tokens, once per occurrence of the token. *)
Theorem rel_element_contributes_to_one_side
        (C : Collaborators) (base_url : Url) (doc : Node) (parsed parsed' : Parsed) :
  Parser_parse C base_url doc parsed = Ok parsed' ->
  let els := find_all doc ["a"; "link"] "rel" in
  (forall token,
      dict_get_or token [] (rels parsed') =
      dict_get_or token [] (rels parsed) ++ flat_map (rel_urls C base_url token) els) /\
  alternates_or_nil parsed' =
  alternates_or_nil parsed ++ flat_map (alt_entries C base_url) els /\
  forall el tokens,
    In el els ->
    get_attr C el "rel" = Some (AList tokens) ->
    exists url,
      urljoin C base_url (el_get_or el "href" (AStr "")) = Ok url /\
      (In "alternate" tokens ->
       (forall token, rel_urls C base_url token el = []) /\
       exists entry,
         alt_entries C base_url el = [entry] /\ alt_url entry = url) /\
      (~ In "alternate" tokens ->
       alt_entries C base_url el = [] /\
       forall token,
         rel_urls C base_url token el = repeat url (count_occ string_dec tokens token)).
Proof.
  intros Hrun els. unfold Parser_parse in Hrun. fold els in Hrun.
  destruct (for_each_parse_rels_adds C base_url els _ _ Hrun) as [Hr Ha].
  split; [exact Hr|]. split; [exact Ha|].
  intros el tokens Hin Hrel.
  destruct (for_each_parse_rels_resolved C base_url els _ _ el _ Hrun Hin Hrel)
    as [url Hurl].
  exists url. split; [exact Hurl|]. split.
  - intros Halt. split.
    + intros token. now apply (rel_urls_alternate C base_url el tokens).
    + exists (alternate_entry C el (AList tokens) url).
      split; [now apply alt_entries_alternate | reflexivity].
  - intros Hout. split.
    + now apply (alt_entries_plain C base_url el tokens).
    + intros token. now apply rel_urls_plain.
Qed.

Lemma rel_element_contributes_to_one_side_witness :
  exists parsed',
    Parser_parse Sample.collaborators (Some (AStr "http://example.com/"))
                 Examples.three_links (mkParsed [] [] None) = Ok parsed' /\
    dict_get_or "me" [] (rels parsed') = ["http://example.com/a"; "http://example.com/b"] /\
    dict_get_or "author" [] (rels parsed') = ["http://example.com/b"] /\
    dict_get_or "alternate" [] (rels parsed') = [] /\
    map alt_url (alternates_or_nil parsed') = ["http://example.com/feed"].
Proof.
  eexists. split; [reflexivity|].
  destruct (rel_element_contributes_to_one_side
              Sample.collaborators (Some (AStr "http://example.com/"))
              Examples.three_links (mkParsed [] [] None) _ eq_refl) as (Hr & Ha & _).
  split; [exact (Hr "me")|]. split; [exact (Hr "author")|].
  split; [exact (Hr "alternate") | exact (f_equal (map alt_url) Ha)].
Defined.

(** X6: the rel pass keeps document order.  After [Parser.parse] the list
    of a rel token is the list it had before, followed by the URLs of the
    [a] and [link] elements with that token and without "alternate", one
    element after the other; the alternates are those it had before,
    followed by one entry per element with "alternate", in the same order. *)
Theorem rel_pass_in_document_order
        (C : Collaborators) (base_url : Url) (doc : Node) (parsed parsed' : Parsed) :
  Parser_parse C base_url doc parsed = Ok parsed' ->
  (forall token,
      dict_get_or token [] (rels parsed') =
      dict_get_or token [] (rels parsed) ++
      flat_map (rel_urls C base_url token) (find_all doc ["a"; "link"] "rel")) /\
  alternates_or_nil parsed' =
  alternates_or_nil parsed ++
  flat_map (alt_entries C base_url) (find_all doc ["a"; "link"] "rel").
Proof.
  unfold Parser_parse. intros H.
  apply for_each_parse_rels_adds in H as [Hr Ha]. split; assumption.
Qed.

Lemma rel_pass_in_document_order_witness :
  exists parsed',
    Parser_parse Sample.collaborators (Some (AStr "http://example.com/"))
                 Examples.three_links (mkParsed [] [] None) = Ok parsed' /\
    dict_get_or "me" [] (rels parsed') = ["http://example.com/a"; "http://example.com/b"] /\
    map alt_url (alternates_or_nil parsed') = ["http://example.com/feed"].
Proof.
  eexists. split; [reflexivity|].
  destruct (rel_pass_in_document_order
              Sample.collaborators (Some (AStr "http://example.com/"))
              Examples.three_links (mkParsed [] [] None) _ eq_refl) as [Hr Ha].
  split; [exact (Hr "me") | exact (f_equal (map alt_url) Ha)].
Defined.

(** X7: in the result of a parse no rel token maps to an empty list and the
    alternates key never holds an empty list. *)
Theorem rels_and_alternates_never_empty
        (C : Collaborators) (doc : option DocArg) (url : option string)
        (self : Parser) :
  Parser_init C doc url = Ok self ->
  (forall token urls, In (token, urls) (rels (parsed__ self)) -> urls <> []) /\
  alternates (parsed__ self) <> Some [].
Proof.
  intros Hinit.
  assert (Hempty : rels_well_formed (mkParsed [] [] None))
    by (split; [intros k vs [] | discriminate]).
  destruct (doc__ self) as [d|] eqn:Ed.
  - pose proof (Parser_init_document C doc url self d Hinit Ed) as Hp.
    unfold Parser_parse in Hp.
    apply for_each_parse_rels_well_formed in Hp; [exact Hp|].
    split; [intros k vs [] | discriminate].
  - unfold Parser_init in Hinit.
    destruct (fetch_if_needed C url (doc_of_arg C doc)) as [[u0 d0]|];
      cbn [bind] in Hinit; [|discriminate].
    destruct (apply_base C u0 d0) as [u1|]; cbn [bind] in Hinit; [|discriminate].
    destruct d0 as [d0|].
    + destruct (Parser_parse C u1 _ _); cbn [bind] in Hinit; [|discriminate].
      injection Hinit as <-. discriminate Ed.
    + injection Hinit as <-. exact Hempty.
Qed.

Lemma rels_and_alternates_never_empty_witness :
  exists self,
    Parser_init Sample.collaborators (Some (DocSoup Examples.three_links))
                (Some "http://example.com/") = Ok self /\
    alternates (parsed__ self) <> Some [].
Proof.
  eexists. split; [reflexivity|].
  exact (proj2 (rels_and_alternates_never_empty
                  Sample.collaborators (Some (DocSoup Examples.three_links))
                  (Some "http://example.com/") _ eq_refl)).
Defined.

(** X8: the rel pass stops at the first [href] that [urljoin] rejects: when
    the walk for the items has returned and the elements before it are
    accepted, [Parser.parse] raises the exception of that element, and
    neither the items nor the rels collected so far are returned.  When the
    walk for the items raises, the rel pass is not reached and its
    exception is the one of [Parser.parse]. *)
Theorem rel_pass_raises_first_error
        (C : Collaborators) (F : Failures) (base_url : Url) (frames : nat)
        (doc : Node) (parsed : Parsed)
        (before after : list Node) (el : Node) (e : PyError) :
  find_all doc ["a"; "link"] "rel" = before ++ el :: after ->
  (forall b, In b before -> get_attr C b "rel" <> None ->
             succeeds (urljoin C base_url (el_get_or b "href" (AStr "")))) ->
  get_attr C el "rel" <> None ->
  urljoin C base_url (el_get_or el "href" (AStr "")) = Raise e ->
  (succeeds (Raising.parse_el C F base_url doc frames [] None) ->
   Raising.Parser_parse C F base_url frames doc parsed = Raise e) /\
  (forall e0,
      Raising.parse_el C F base_url doc frames [] None = Raise e0 ->
      Raising.Parser_parse C F base_url frames doc parsed = Raise e0).
Proof.
  intros Hels Hbefore Hrel Hraise. unfold Raising.Parser_parse. split.
  - intros [[ctx st] ->]. cbn [bind]. rewrite Hels, for_each_app.
    match goal with
    | |- context [for_each _ before ?p] =>
        destruct (for_each_parse_rels_succeeds C base_url before p) as [p1 ->]
    end.
    + apply Forall_forall. intros b Hb. now apply Hbefore.
    + cbn [bind for_each]. unfold parse_rels at 1.
      destruct (get_attr C el "rel"); [|congruence]. now rewrite Hraise.
  - intros e0 ->. reflexivity.
Qed.

Lemma rel_pass_raises_first_error_witness :
  Raising.Parser_parse Sample.collaborators Sample.failures
                       (Some (AStr "http://example.com/")) 4
                       Examples.links_with_bad_href (mkParsed [] [] None)
  = Raise (ValueError "Invalid IPv6 URL").
Proof.
  apply (rel_pass_raises_first_error
           Sample.collaborators Sample.failures (Some (AStr "http://example.com/")) 4
           Examples.links_with_bad_href (mkParsed [] [] None)
           [NTag "a" [("rel", AList ["me"]); ("href", AStr "/a")] []]
           [NTag "a" [("rel", AList ["me"]); ("href", AStr "/b")] []]
           (NTag "a" [("rel", AList ["me"]); ("href", AStr "http://[")] [])).
  - reflexivity.
  - intros b [<-|[]] _. eexists. reflexivity.
  - discriminate.
  - reflexivity.
  - eexists. reflexivity.
Defined.

(* ===================================================================== *)
(** ** Filtering the items of a parse *)
(* ===================================================================== *)

Lemma filter_of_map {A B} (f : B -> bool) (g : A -> B) (l : list A) :
  filter f (map g l) = map g (filter (fun a => f (g a)) l).
Proof.
  induction l as [|a l IH]; [reflexivity|]. simpl.
  destruct (f (g a)); simpl; now rewrite IH.
Qed.

(** X9: filtering a parse by type selects by root classname: the list
    [to_dict] returns for a type holds the records of exactly those maximal
    root elements of the document whose root classnames include the type, in
    document order. *)
Theorem filter_by_type_selects_roots
        (C : Collaborators) (doc : option DocArg) (url : option string)
        (self : Parser) (d : Node) (t : string) :
  Parser_init C doc url = Ok self ->
  doc__ self = Some d ->
  Parser_to_dict self (Some t) =
  ItemList (map (record_of C (url__ self))
                (filter (fun e => existsb (String.eqb t) (potential_microformats C e))
                        (spec_maximal_roots C d))).
Proof.
  intros Hinit Hd.
  pose proof (Parser_init_document C doc url self d Hinit Hd) as Hp.
  apply Parser_parse_items in Hp. unfold Parser_to_dict. rewrite Hp, filter_of_map.
  f_equal. f_equal. apply filter_ext. intros e. unfold record_of.
  now rewrite handle_microformat_type.
Qed.

Lemma filter_by_type_selects_roots_witness :
  exists self l,
    Parser_init Sample.collaborators (Some (DocSoup Examples.feed_and_card)) None
    = Ok self /\
    Parser_to_dict self (Some "h-card") = ItemList l /\
    length l = 1.
Proof.
  eexists. eexists. split; [reflexivity|]. split.
  - exact (filter_by_type_selects_roots
             Sample.collaborators (Some (DocSoup Examples.feed_and_card)) None
             _ Examples.feed_and_card "h-card" eq_refl eq_refl).
  - reflexivity.
Defined.

(* ===================================================================== *)
(** ** The document and the base URL that [__init__] settles on *)
(* ===================================================================== *)

Lemma Parser_init_base C doc url self d :
  Parser_init C doc url = Ok self ->
  doc_of_arg C doc = Some d ->
  apply_base C (initial_url url) (Some d) = Ok (url__ self).
Proof.
  unfold Parser_init. intros H Hd. rewrite Hd, fetch_not_needed in H. cbn [bind] in H.
  destruct (apply_base C (initial_url url) (Some d)) as [u1|]; cbn [bind] in H;
    [|discriminate].
  destruct (Parser_parse C u1 _ _); cbn [bind] in H; [|discriminate].
  now injection H as <-.
Qed.

(** X10: the base URL of a parse.  Without a [<base>] element that has a
    non-empty [href] it is the [url] argument; a [<base href>] with a
    network location replaces the [url] argument; one without is joined to
    the [url] argument, and is ignored when there is no [url] argument. *)
Theorem effective_base_url
        (C : Collaborators) (doc : option DocArg) (url : option string)
        (self : Parser) (d : Node) :
  Parser_init C doc url = Ok self ->
  doc_of_arg C doc = Some d ->
  (base_href d = None -> url__ self = initial_url url) /\
  (forall v netloc,
      base_href d = Some v -> urlparse_netloc C v = Ok netloc -> netloc <> "" ->
      url__ self = Some v) /\
  (forall v,
      base_href d = Some v -> urlparse_netloc C v = Ok "" ->
      match initial_url url with
      | None => url__ self = None
      | Some _ => exists joined,
                    urljoin C (initial_url url) v = Ok joined /\
                    url__ self = Some (AStr joined)
      end).
Proof.
  intros Hinit Hd. pose proof (Parser_init_base C doc url self d Hinit Hd) as Hb.
  unfold apply_base in Hb. unfold base_href.
  destruct (find d "base") as [poss_base|].
  2:{ injection Hb as Hb. repeat split; try discriminate. now intros _. }
  destruct (el_get poss_base "href") as [v0|].
  2:{ injection Hb as Hb. repeat split; try discriminate. now intros _. }
  destruct (py_truthy v0).
  2:{ injection Hb as Hb. repeat split; try discriminate. now intros _. }
  split; [discriminate|]. split.
  - intros v netloc [= <-] Hn Hne. rewrite Hn in Hb. cbn [bind] in Hb.
    destruct (Py.truthy netloc) eqn:E; [now injection Hb|].
    apply truthy_false in E. contradiction.
  - intros v [= <-] Hn. rewrite Hn in Hb. cbn [bind] in Hb. simpl Py.truthy in Hb.
    cbv iota in Hb. unfold initial_url in *.
    destruct url as [u|]; [|now injection Hb].
    destruct (Py.truthy u) eqn:E; [|now injection Hb].
    simpl py_truthy in Hb. rewrite E in Hb.
    destruct (urljoin C (Some (AStr u)) v0) as [joined|]; cbn [bind] in Hb;
      [|discriminate].
    exists joined. split; [reflexivity | now injection Hb].
Qed.

Lemma effective_base_url_witness :
  exists self,
    Parser_init Sample.collaborators (Some (DocSoup Examples.absolute_base))
                (Some "http://example.com/") = Ok self /\
    url__ self = Some (AStr "http://example.org/dir/").
Proof.
  eexists. split; [reflexivity|].
  refine (proj1 (proj2 (effective_base_url
                          Sample.collaborators (Some (DocSoup Examples.absolute_base))
                          (Some "http://example.com/") _ Examples.absolute_base
                          eq_refl eq_refl))
                (AStr "http://example.org/dir/") "example.org" eq_refl eq_refl _).
  discriminate.
Defined.

(** X11: a parse that is given a document does not use the network: the
    result is the same whatever [requests.get] would do. *)
Theorem document_given_no_request
        (C : Collaborators) (get : string -> Result Response)
        (doc : option DocArg) (url : option string) (d : Node) :
  doc_of_arg C doc = Some d ->
  parse (with_requests_get C get) doc url = parse C doc url.
Proof.
  intros Hd. unfold parse, Parser_init.
  change (doc_of_arg (with_requests_get C get) doc) with (doc_of_arg C doc).
  rewrite Hd, !fetch_not_needed. reflexivity.
Qed.

Lemma document_given_no_request_witness :
  parse (with_requests_get Sample.collaborators
                           (fun _ => Ok (mkResponse None "" "")))
        (Some (DocSoup Examples.entry)) (Some "http://example.com/")
  = parse Sample.collaborators (Some (DocSoup Examples.entry))
          (Some "http://example.com/").
Proof.
  exact (document_given_no_request
           Sample.collaborators (fun _ => Ok (mkResponse None "" ""))
           (Some (DocSoup Examples.entry)) (Some "http://example.com/")
           Examples.entry eq_refl).
Defined.

(** X12: a parse that is given a URL but no document fetches it: a failure
    of [requests.get] leaves [parse] as it is raised, and otherwise the
    result is that of parsing the fetched body with the same URL, the text
    of the response when its content type names a charset and its raw
    content when not. *)
Theorem parse_by_url_parses_fetched_body
        (C : Collaborators) (doc : option DocArg) (u : string) :
  doc_of_arg C doc = None ->
  Py.truthy u = true ->
  (forall e, requests_get C u = Raise e -> parse C doc (Some u) = Raise e) /\
  (forall data,
      requests_get C u = Ok data ->
      parse C doc (Some u) =
      parse C (Some (DocSoup (BeautifulSoup C (fetched_body data)))) (Some u)).
Proof.
  intros Hd Hu. split.
  - intros e He. unfold parse, Parser_init, fetch_if_needed.
    now rewrite Hd, Hu, He.
  - intros data Hdata. unfold parse, Parser_init.
    cbn [doc_of_arg]. rewrite fetch_not_needed. unfold fetch_if_needed, initial_url.
    rewrite Hd, Hu, Hdata. cbn [bind]. unfold fetched_body.
    destruct (Py.contains "charset" _); reflexivity.
Qed.

Lemma parse_by_url_parses_fetched_body_witness :
  parse Sample.collaborators None (Some "http://example.com/")
  = Raise (RequestException "unreachable").
Proof.
  exact (proj1 (parse_by_url_parses_fetched_body
                  Sample.collaborators None "http://example.com/" eq_refl eq_refl)
               (RequestException "unreachable") eq_refl).
Defined.

(** X13: empty arguments count as missing ones: when the document is
    [None] or an empty string and the URL is [None] or an empty string,
    nothing is fetched or parsed and the result is the empty dictionary. *)
Theorem parse_of_empty_arguments
        (C : Collaborators) (doc : option DocArg) (url : option string) :
  doc_of_arg C doc = None ->
  initial_url url = None ->
  parse C doc url = Ok (FullDict (mkParsed [] [] None)).
Proof.
  intros Hd Hu. unfold parse, Parser_init, fetch_if_needed. rewrite Hd.
  unfold initial_url in Hu. destruct url as [u|]; [|reflexivity].
  destruct (Py.truthy u); [discriminate | reflexivity].
Qed.

Lemma parse_of_empty_arguments_witness :
  parse Sample.collaborators (Some (DocMarkup "")) (Some "")
  = Ok (FullDict (mkParsed [] [] None)).
Proof.
  exact (parse_of_empty_arguments
           Sample.collaborators (Some (DocMarkup "")) (Some "") eq_refl eq_refl).
Defined.

(* ===================================================================== *)
(** ** Document order inside a record *)
(* ===================================================================== *)

Lemma dict_get_or_extend_same {A} k (xs : list A) d :
  dict_get_or k [] (dict_extend k xs d) = dict_get_or k [] d ++ xs.
Proof. unfold dict_extend, dict_get_or at 1. now rewrite dict_get_set_same. Qed.

Lemma dict_get_or_extend_other {A} k k' (xs : list A) d :
  k <> k' -> dict_get_or k [] (dict_extend k' xs d) = dict_get_or k [] d.
Proof.
  intros Hne. unfold dict_extend, dict_get_or at 1.
  now rewrite dict_get_set_other by assumption.
Qed.

Lemma dict_get_not_key {V} k (d : Dict V) : ~ In k (map fst d) -> dict_get k d = None.
Proof.
  induction d as [|[k' v] d IH]; [reflexivity|]. simpl. intros Hn.
  destruct (String.eqb k k') eqn:E.
  - apply String.eqb_eq in E. subst. exfalso. apply Hn. now left.
  - apply IH. intros H. apply Hn. now right.
Qed.

Lemma keys_dict_set {V} k (v : V) d k' :
  In k' (map fst (dict_set k v d)) -> k' = k \/ In k' (map fst d).
Proof.
  intros H. apply in_map_iff in H as ([k0 v0] & <- & Hin).
  apply in_dict_set in Hin as [[= -> ->]|Hin]; [now left|].
  right. apply in_map_iff. now exists (k0, v0).
Qed.

(** Assignment keeps the keys of a dictionary distinct. *)
Lemma dict_set_unique {V} k (v : V) d :
  NoDup (map fst d) -> NoDup (map fst (dict_set k v d)).
Proof.
  induction d as [|[k0 v0] d IH]; simpl; intros Hd.
  - constructor; [intros [] | constructor].
  - inversion Hd as [|? ? Hnot Hrest]; subst.
    destruct (String.eqb k k0) eqn:E; simpl.
    + now constructor.
    + constructor; [|now apply IH].
      intros Hin. apply keys_dict_set in Hin as [->|Hin]; [|contradiction].
      now rewrite String.eqb_refl in E.
Qed.

Lemma dict_get_or_cons {V} k k' (v dflt : V) d :
  dict_get_or k dflt ((k', v) :: d) =
  if String.eqb k k' then v else dict_get_or k dflt d.
Proof. unfold dict_get_or. simpl. destruct (String.eqb k k'); reflexivity. Qed.

(** Merging a dictionary with distinct keys appends, key by key. *)
Lemma fold_dict_extend_get {A} (child : Dict (list A)) :
  NoDup (map fst child) ->
  forall props k,
    dict_get_or k []
      (fold_left (fun acc kv => dict_extend (fst kv) (snd kv) acc) child props) =
    dict_get_or k [] props ++ dict_get_or k [] child.
Proof.
  induction child as [|[k1 v1] child IH]; intros Hd props k.
  - simpl. now rewrite app_nil_r.
  - inversion Hd as [|? ? Hnot Hrest]; subst. cbn [fold_left fst snd].
    rewrite (IH Hrest). destruct (string_dec k k1) as [->|Hne].
    + rewrite dict_get_or_extend_same, dict_get_or_cons, String.eqb_refl.
      unfold dict_get_or at 2. rewrite (dict_get_not_key k1 child Hnot).
      now rewrite app_nil_r.
    + rewrite dict_get_or_extend_other by assumption.
      rewrite dict_get_or_cons. apply String.eqb_neq in Hne. now rewrite Hne.
Qed.

Lemma fold_dict_extend_unique {A} (child props : Dict (list A)) :
  NoDup (map fst props) ->
  NoDup (map fst (fold_left (fun acc kv => dict_extend (fst kv) (snd kv) acc)
                            child props)).
Proof.
  revert props. induction child as [|[k1 v1] child IH]; intros props Hp; [assumption|].
  simpl. apply IH. now apply dict_set_unique.
Qed.

Section DocumentOrder.
Variable C : Collaborators.
Variable base_url : Url.

Lemma property_loop_unique nested roots extract names props st :
  NoDup (map fst props) ->
  NoDup (map fst (fst (fst (property_loop nested roots extract names props st)))).
Proof.
  unfold property_loop. intros Hp.
  assert (H : forall names acc,
             NoDup (map fst (fst (fst (fst acc)))) ->
             NoDup (map fst (fst (fst (fst
               (fold_left (property_step nested roots extract) names acc)))))).
  { clear. induction names as [|n names IH]; intros acc Hacc; [assumption|].
    cbn [fold_left]. apply IH. destruct acc as [[[props memo] st] k].
    unfold property_step. simpl in Hacc.
    destruct memo as [v|]; [|destruct (extract st) as [v st1]];
      (destruct roots; [|destruct (nested v _)]); simpl;
      now apply dict_set_unique. }
  specialize (H names (props, None, st, 0) Hp).
  destruct (fold_left _ names _) as [[[p memo] st1] k]. exact H.
Qed.

Lemma scan_children_unique pp contents :
  forall acc st,
    NoDup (map fst (fst acc)) ->
    NoDup (map fst (fst (fst (scan_children pp contents acc st)))).
Proof.
  induction contents as [|c cs IH]; intros acc st Hacc; [assumption|].
  destruct c as [s | n a k]; cbn [scan_children]; [now apply IH|].
  destruct (pp (NTag n a k) st) as [found st1]. apply IH.
  unfold merge. simpl. now apply fold_dict_extend_unique.
Qed.

(** The properties a scan returns have distinct keys. *)
Lemma parse_props_unique el st :
  NoDup (map fst (fst (fst (parse_props C base_url el st)))).
Proof.
  destruct el as [s | name attrs contents]; [constructor|].
  set (el := NTag name attrs contents).
  rewrite (parse_props_tag C base_url el st eq_refl). unfold parse_props_body.
  cbv beta zeta.
  match goal with
  | |- context [property_loop ?f ?r (extract_text C el) ?ns ?p ?s] =>
      pose proof (property_loop_unique f r (extract_text C el) ns p s (NoDup_nil _)) as H1;
      destruct (property_loop f r (extract_text C el) ns p s) as [[p1 s1] n1]
  end.
  simpl in H1.
  match goal with
  | |- context [property_loop ?f ?r (extract_url C base_url el) ?ns p1 s1] =>
      pose proof (property_loop_unique f r (extract_url C base_url el) ns p1 s1 H1) as H2;
      destruct (property_loop f r (extract_url C base_url el) ns p1 s1) as [[p2 s2] n2]
  end.
  simpl in H2.
  match goal with
  | |- context [property_loop ?f ?r (extract_datetime C el) ?ns p2 s2] =>
      pose proof (property_loop_unique f r (extract_datetime C el) ns p2 s2 H2) as H3;
      destruct (property_loop f r (extract_datetime C el) ns p2 s2) as [[p3 s3] n3]
  end.
  simpl in H3.
  match goal with
  | |- context [property_loop ?f ?r (extract_embedded C el) ?ns p3 s3] =>
      pose proof (property_loop_unique f r (extract_embedded C el) ns p3 s3 H3) as H4;
      destruct (property_loop f r (extract_embedded C el) ns p3 s3) as [[p4 s4] n4]
  end.
  simpl in H4.
  destruct (mf2_root C (el_classes el)) as [|r rs].
  - now apply scan_children_unique.
  - destruct (declares_property C (el_classes el)); [exact H4|].
    destruct (handle_microformat C base_url (r :: rs) el None s4). exact H4.
Qed.

(** The loop over the children appends what each child returned, in
    document order. *)
Lemma scan_children_in_order contents :
  forall acc st,
    (forall k,
        dict_get_or k [] (fst (fst (scan_children (parse_props C base_url) contents acc st)))
        = dict_get_or k [] (fst acc) ++
          concat (map (fun r => dict_get_or k [] (fst r))
                      (scan_results (parse_props C base_url) contents st))) /\
    snd (fst (scan_children (parse_props C base_url) contents acc st)) =
    snd acc ++ concat (map snd (scan_results (parse_props C base_url) contents st)).
Proof.
  induction contents as [|c cs IH]; intros acc st.
  - simpl. split; [intros|]; now rewrite app_nil_r.
  - destruct c as [s | n a k]; cbn [scan_children scan_results]; [apply IH|].
    pose proof (parse_props_unique (NTag n a k) st) as Hu.
    destruct (parse_props C base_url (NTag n a k) st) as [found st1].
    destruct (IH (merge acc found) st1) as [Hp Hc]. simpl in Hu. split.
    + intros key. rewrite Hp. unfold merge. cbn [fst map concat].
      rewrite fold_dict_extend_get by assumption. now rewrite app_assoc.
    + rewrite Hc. unfold merge. cbn [snd map concat]. now rewrite app_assoc.
Qed.
End DocumentOrder.

(** X14: a record keeps document order.  The values of a property other
    than the implied ones are the values the direct child elements returned
    for it, one child after the other, and the children of the record are
    the child records they returned, in the same order; the [children] key
    is left out when there is none. *)
Theorem record_in_document_order
        (C : Collaborators) (base_url : Url) (root_class_names : list string)
        (el : Node) (simple_value : option Scalar) (st : State) :
  let results := scan_results (parse_props C base_url) (el_contents el) None in
  let m := fst (handle_microformat C base_url root_class_names el simple_value st) in
  (forall k, k <> "name" -> k <> "photo" -> k <> "url" ->
             dict_get_or k [] (mf_properties m) =
             concat (map (fun r => dict_get_or k [] (fst r)) results)) /\
  mf_children m = match concat (map snd results) with
                  | [] => None
                  | (_ :: _) as l => Some l
                  end.
Proof.
  intros results m. subst results m.
  destruct (scan_children_in_order C base_url (el_contents el) ([], []) None)
    as [Hp Hc].
  unfold handle_microformat, handle_microformat_with.
  destruct (scan_children (parse_props C base_url) (el_contents el) ([], []) None)
    as [[properties children] st1].
  simpl in Hp, Hc. simpl fst. split.
  - intros k Hn Hph Hu. cbn [mf_properties build_microformat].
    rewrite <- Hp. unfold dict_get_or. rewrite add_implied_steps.
    now rewrite !set_if_absent_other by assumption.
  - cbn [mf_children build_microformat]. rewrite <- Hc. now destruct children.
Qed.

(** The scan of an element without root classnames: its own values, then
    the loop over its children. *)
Lemma parse_props_plain C base_url el st :
  is_tag el = true ->
  mf2_root C (el_classes el) = [] ->
  parse_props C base_url el st =
  scan_children (parse_props C base_url) (el_contents el)
    (append_all (PScalar (fst (extract_embedded C el st)))
                (mf2_embedded C (el_classes el))
       (append_all (PScalar (fst (extract_datetime C el st)))
                   (mf2_datetime C (el_classes el))
          (append_all (PScalar (fst (extract_url C base_url el st)))
                      (mf2_url C (el_classes el))
             (append_all (PScalar (fst (extract_text C el st)))
                         (mf2_text C (el_classes el)) []))),
     [])
    match mf2_datetime C (el_classes el) with
    | [] => st
    | _ :: _ => snd (extract_datetime C el st)
    end.
Proof.
  intros Htag Hroots. rewrite parse_props_tag by assumption.
  unfold parse_props_body. rewrite Hroots. cbv beta zeta.
  destruct (mf2_text C (el_classes el)), (mf2_url C (el_classes el)),
    (mf2_datetime C (el_classes el)), (mf2_embedded C (el_classes el));
    repeat (rewrite property_loop_closed by (intros; apply handle_microformat_forgets);
            cbv beta iota zeta);
    reflexivity.
Qed.

(** X15: an element without root classnames returns its own values before
    those of its descendants.  Under a property name come the plaintext
    value, the URL, the datetime and the embedded value of the element, each
    as often as the element declares the name in that category, and then
    what its child elements returned, one after the other; its child
    records are those of its child elements, in order. *)
Theorem plain_element_in_document_order
        (C : Collaborators) (base_url : Url) (el : Node) (st : State) (k : string) :
  is_tag el = true ->
  mf2_root C (el_classes el) = [] ->
  let classes := el_classes el in
  let st' := match mf2_datetime C classes with
             | [] => st
             | _ :: _ => snd (extract_datetime C el st)
             end in
  let results := scan_results (parse_props C base_url) (el_contents el) st' in
  let found := fst (parse_props C base_url el st) in
  dict_get_or k [] (fst found) =
    repeat (PScalar (fst (extract_text C el st)))
           (count_occ string_dec (mf2_text C classes) k) ++
    repeat (PScalar (fst (extract_url C base_url el st)))
           (count_occ string_dec (mf2_url C classes) k) ++
    repeat (PScalar (fst (extract_datetime C el st)))
           (count_occ string_dec (mf2_datetime C classes) k) ++
    repeat (PScalar (fst (extract_embedded C el st)))
           (count_occ string_dec (mf2_embedded C classes) k) ++
    concat (map (fun r => dict_get_or k [] (fst r)) results) /\
  snd found = concat (map snd results).
Proof.
  intros Htag Hroots classes st' results found. subst found results st' classes.
  rewrite parse_props_plain by assumption.
  match goal with
  | |- context [scan_children _ ?cs ?acc ?s] =>
      destruct (scan_children_in_order C base_url cs acc s) as [Hp Hc]
  end.
  split; [|exact Hc].
  rewrite Hp. cbn [fst]. rewrite !append_all_get.
  unfold dict_get_or at 1. cbn [dict_get app]. now rewrite <- !app_assoc.
Qed.

Lemma plain_element_in_document_order_witness :
  dict_get_or "name" []
    (fst (fst (parse_props Sample.collaborators None Examples.jo_span None)))
  = [PScalar (SStr "Jo")].
Proof.
  exact (proj1 (plain_element_in_document_order
                  Sample.collaborators None Examples.jo_span None "name"
                  eq_refl eq_refl)).
Defined.

(* ===================================================================== *)
(** ** One value per category *)
(* ===================================================================== *)

Section CategoryFacts.
Variable C : Collaborators.
Variable base_url : Url.

(** The properties of an element with root classnames: for each category
    the nested record built around its value, under each name. *)
Lemma parse_props_root_values el st :
  is_tag el = true ->
  mf2_root C (el_classes el) <> [] ->
  fst (fst (parse_props C base_url el st)) =
  append_all (category_value C base_url el st Embedded) (mf2_embedded C (el_classes el))
    (append_all (category_value C base_url el st Datetime) (mf2_datetime C (el_classes el))
       (append_all (category_value C base_url el st UrlValued) (mf2_url C (el_classes el))
          (append_all (category_value C base_url el st Plaintext)
                      (mf2_text C (el_classes el)) []))).
Proof.
  intros Htag Hroots. rewrite parse_props_tag by assumption.
  unfold parse_props_body, category_value, date_at_datetime, declares_property.
  destruct (mf2_root C (el_classes el)) as [|r rs]; [congruence|].
  destruct (mf2_text C (el_classes el)), (mf2_url C (el_classes el)),
    (mf2_datetime C (el_classes el)), (mf2_embedded C (el_classes el));
    cbv beta zeta;
    repeat (rewrite property_loop_closed by (intros; apply handle_microformat_forgets);
            cbv beta iota zeta);
    unfold date_after; cbn [app fst snd category_extract];
    rewrite ?handle_microformat_date;
    try (destruct (handle_microformat C base_url (r :: rs) el None _) as [m st1]);
    reflexivity.
Qed.

(** The counted loops are the loops of [parse_props]. *)
Lemma parse_props_counted_run el st :
  is_tag el = true ->
  parse_props C base_url el st =
  after_loops C base_url el (fst (fst (parse_props_counted C base_url el st)))
              (snd (fst (parse_props_counted C base_url el st))).
Proof.
  intros Htag. rewrite parse_props_tag by assumption.
  unfold parse_props_body, parse_props_counted, after_loops.
  cbv zeta.
  repeat match goal with
         | |- context [property_loop ?n ?r ?e ?ns ?p ?s] =>
             lazymatch p with
             | context [property_loop] => fail
             | _ => lazymatch s with
                    | context [property_loop] => fail
                    | _ => destruct (property_loop n r e ns p s) as [[? ?] ?]
                    end
             end
         end.
  reflexivity.
Qed.

Lemma parse_props_counted_counts el st :
  snd (parse_props_counted C base_url el st) =
  (once (mf2_text C (el_classes el)), once (mf2_url C (el_classes el)),
   once (mf2_datetime C (el_classes el)), once (mf2_embedded C (el_classes el))).
Proof.
  unfold parse_props_counted.
  destruct (mf2_text C (el_classes el)), (mf2_url C (el_classes el)),
    (mf2_datetime C (el_classes el)), (mf2_embedded C (el_classes el));
    cbv beta zeta;
    repeat (rewrite property_loop_closed by (intros; apply handle_microformat_forgets);
            cbv beta iota zeta);
    reflexivity.
Qed.
End CategoryFacts.

(** C5: one value per category.  For an element, [parse_props] parses the
    value of each category that has a name once, however many names the
    category has, and appends one and the same value under each of these
    names: the scalar, or for an element with root classnames the nested
    record built around it.  Under a name the element returns these values,
    each as often as it declares the name in the category, followed by what
    the elements below hand up. *)
Theorem category_value_shared
        (C : Collaborators) (base_url : Url) (el : Node) (st : State) :
  is_tag el = true ->
  let classes := el_classes el in
  let found := fst (fst (parse_props C base_url el st)) in
  (forall k,
      dict_get_or k [] found =
      flat_map (fun cat => repeat (category_value C base_url el st cat)
                                  (count_occ string_dec (category_names C cat classes) k))
               categories ++
      values_below C base_url el st k) /\
  (forall cat name,
      In name (category_names C cat classes) ->
      In (category_value C base_url el st cat) (dict_get_or name [] found)) /\
  parse_props C base_url el st =
    after_loops C base_url el (fst (fst (parse_props_counted C base_url el st)))
                (snd (fst (parse_props_counted C base_url el st))) /\
  snd (parse_props_counted C base_url el st) =
    (once (category_names C Plaintext classes), once (category_names C UrlValued classes),
     once (category_names C Datetime classes), once (category_names C Embedded classes)).
Proof.
  intros Htag classes found.
  assert (Hvalues : forall k,
             dict_get_or k [] found =
             flat_map (fun cat => repeat (category_value C base_url el st cat)
                                         (count_occ string_dec
                                                    (category_names C cat classes) k))
                      categories ++
             values_below C base_url el st k).
  { intros k. subst found classes.
    cbn [categories flat_map category_names]. rewrite app_nil_r.
    destruct (mf2_root C (el_classes el)) as [|r rs] eqn:Hroots.
    - rewrite parse_props_plain by assumption.
      match goal with
      | |- context [scan_children _ ?cs ?acc ?s] =>
          destruct (scan_children_in_order C base_url cs acc s) as [Hp _]
      end.
      rewrite Hp. cbn [fst]. rewrite !append_all_get.
      unfold dict_get_or at 1. cbn [dict_get app].
      unfold values_below, category_value, date_at_datetime, appended_value.
      rewrite Hroots. cbn [category_extract]. now rewrite <- !app_assoc.
    - rewrite parse_props_root_values by (assumption || congruence).
      rewrite !append_all_get. unfold dict_get_or at 1. cbn [dict_get app].
      unfold values_below. rewrite Hroots. now rewrite app_nil_r, <- !app_assoc. }
  split; [exact Hvalues|]. split; [|split].
  - intros cat name Hin. rewrite Hvalues. apply in_or_app. left.
    apply in_flat_map. exists cat. split.
    + destruct cat; unfold categories; simpl; auto.
    + destruct (count_occ_pos _ _ Hin) as [n ->]. now left.
  - now apply parse_props_counted_run.
  - apply parse_props_counted_counts.
Qed.

Lemma category_value_shared_witness :
  fst (fst (parse_props Sample.collaborators None Examples.jo_span None))
  = [("name", [PScalar (SStr "Jo")]); ("given-name", [PScalar (SStr "Jo")])] /\
  In (category_value Sample.collaborators None Examples.author_card None Plaintext)
     (dict_get_or "author" []
        (fst (fst (parse_props Sample.collaborators None Examples.author_card None)))) /\
  In (category_value Sample.collaborators None Examples.author_card None Plaintext)
     (dict_get_or "contributor" []
        (fst (fst (parse_props Sample.collaborators None Examples.author_card None)))) /\
  snd (parse_props_counted Sample.collaborators None Examples.author_card None)
  = (1, 0, 0, 0).
Proof.
  split; [reflexivity|].
  destruct (category_value_shared Sample.collaborators None Examples.author_card None
                                  eq_refl) as (_ & Hin & _ & Hcount).
  split; [|split].
  - apply (Hin Plaintext). left. reflexivity.
  - apply (Hin Plaintext). right. left. reflexivity.
  - exact Hcount.
Defined.

(* ===================================================================== *)
(** ** Documents without root classnames *)
(* ===================================================================== *)

Lemma flat_map_nil {A B} (f : A -> list B) (l : list A) :
  flat_map f l = [] <-> forall x, In x l -> f x = [].
Proof.
  induction l as [|a l IH]; simpl.
  - split; [intros _ x [] | reflexivity].
  - split.
    + intros H. apply app_eq_nil in H as [Ha Hl]. intros x [<-|Hx]; [assumption|].
      now apply IH.
    + intros H. rewrite (H a (or_introl eq_refl)). apply IH. intros x Hx.
      apply H. now right.
Qed.

Lemma no_maximal_roots C el :
  is_tag el = true ->
  (spec_maximal_roots C el = [] <->
   carries_root C el = false /\
   forall e, In e (descendants el) -> carries_root C e = false).
Proof.
  induction el as [s | name attrs contents IH] using Node_tree_ind; [discriminate|].
  intros _. cbn [spec_maximal_roots descendants].
  destruct (carries_root C (NTag name attrs contents)) eqn:E.
  - split; [discriminate | intros [H _]; discriminate H].
  - rewrite flat_map_nil. rewrite Forall_forall in IH. split.
    + intros H. split; [reflexivity|]. intros e He.
      apply in_flat_map in He as (c & Hc & He).
      destruct c as [s | n a k]; [destruct He|].
      specialize (H _ Hc). apply (IH _ Hc eq_refl) in H as [Hself Hbelow].
      destruct He as [<-|He]; [assumption | now apply Hbelow].
    + intros [_ H] c Hc. destruct c as [s | n a k]; [reflexivity|].
      apply (IH _ Hc eq_refl). split.
      * apply H. apply in_flat_map. exists (NTag n a k). split; [assumption | now left].
      * intros e He. apply H. apply in_flat_map. exists (NTag n a k).
        split; [assumption | now right].
Qed.

(** X16: a parse has no items exactly when no element of the document, the
    document itself included, is identified as a root by its class. *)
Theorem no_items_iff_no_root
        (C : Collaborators) (doc : option DocArg) (url : option string)
        (self : Parser) (d : Node) :
  Parser_init C doc url = Ok self ->
  doc__ self = Some d ->
  is_tag d = true ->
  (items (parsed__ self) = [] <->
   forall e, In e (d :: descendants d) -> carries_root C e = false).
Proof.
  intros Hinit Hd Htag.
  pose proof (Parser_init_document C doc url self d Hinit Hd) as Hp.
  apply Parser_parse_items in Hp. rewrite Hp.
  assert (Hmap : forall l : list Node,
             map (record_of C (url__ self)) l = [] <-> l = [])
    by (intros [|]; simpl; split; congruence).
  rewrite Hmap, (no_maximal_roots C d Htag). split.
  - intros [Hself Hbelow] e [<-|He]; [assumption | now apply Hbelow].
  - intros H. split; [apply H; now left | intros e He; apply H; now right].
Qed.

Lemma no_items_iff_no_root_witness :
  exists self,
    Parser_init Sample.collaborators (Some (DocSoup Examples.three_links)) None
    = Ok self /\
    items (parsed__ self) = [].
Proof.
  eexists. split; [reflexivity|].
  apply (proj2 (no_items_iff_no_root
                  Sample.collaborators (Some (DocSoup Examples.three_links)) None
                  _ Examples.three_links eq_refl eq_refl eq_refl)).
  intros e [<-|[<-|[<-|[<-|[]]]]]; reflexivity.
Defined.

(* ===================================================================== *)
(** ** A [<base>] element the URL library rejects *)
(* ===================================================================== *)

(** X18: an exception of the URL library on the [href] of the first
    [<base>] element leaves [parse] as it is raised: that of [urlparse], and
    that of [urljoin] when the [href] has no network location and a URL was
    given. *)
Theorem base_href_errors_propagate
        (C : Collaborators) (doc : option DocArg) (url : option string)
        (d : Node) (v : AttrValue) (e : PyError) :
  doc_of_arg C doc = Some d ->
  base_href d = Some v ->
  (urlparse_netloc C v = Raise e \/
   (urlparse_netloc C v = Ok "" /\ initial_url url <> None /\
    urljoin C (initial_url url) v = Raise e)) ->
  parse C doc url = Raise e.
Proof.
  intros Hd Hb H. unfold parse, Parser_init. rewrite Hd, fetch_not_needed.
  cbn [bind]. unfold apply_base. unfold base_href in Hb.
  destruct (find d "base") as [poss_base|]; [|discriminate].
  destruct (el_get poss_base "href") as [v0|]; [|discriminate].
  destruct (py_truthy v0); [|discriminate]. injection Hb as ->.
  destruct H as [-> | (-> & Hu & Hj)]; [reflexivity|].
  cbn [bind]. simpl Py.truthy. cbv iota.
  unfold initial_url in *. destruct url as [u|]; [|congruence].
  destruct (Py.truthy u) eqn:E; [|congruence].
  simpl py_truthy. rewrite E, Hj. reflexivity.
Qed.

Lemma base_href_errors_propagate_witness :
  parse Sample.collaborators (Some (DocSoup Examples.bad_base))
        (Some "http://example.com/")
  = Raise (ValueError "Invalid IPv6 URL").
Proof.
  apply (base_href_errors_propagate
           Sample.collaborators (Some (DocSoup Examples.bad_base))
           (Some "http://example.com/") Examples.bad_base (AStr "http://[")
           (ValueError "Invalid IPv6 URL") eq_refl eq_refl).
  left. reflexivity.
Defined.

(* ===================================================================== *)
(** ** The date a datetime property hands on *)
(* ===================================================================== *)

(** X19: an element without root classnames that declares a datetime
    property hands the date it found to the elements scanned after it: when
    nothing below it touches the default date, the default date after its
    scan is the date the extractor returned, if it returned one that is not
    empty, and the date from before otherwise. *)
Theorem datetime_property_sets_default_date
        (C : Collaborators) (base_url : Url) (el : Node) (st : State) :
  is_tag el = true ->
  mf2_root C (el_classes el) = [] ->
  mf2_datetime C (el_classes el) <> [] ->
  forallb (date_neutral C) (el_contents el) = true ->
  snd (parse_props C base_url el st) =
  match snd (property_datetime C el st) with
  | Some d => if Py.truthy d then Some d else st
  | None => st
  end.
Proof.
  intros Htag Hroots Hdt Hkids. rewrite parse_props_plain by assumption.
  rewrite scan_children_keeps_date.
  - destruct (mf2_datetime C (el_classes el)); [congruence|].
    unfold extract_datetime. now destruct (property_datetime C el st).
  - rewrite forallb_forall in Hkids. apply Forall_forall. intros c Hc.
    apply date_neutral_keeps_date. now apply Hkids.
Qed.

Lemma datetime_property_sets_default_date_witness :
  snd (parse_props Sample.collaborators None Examples.start_time None)
  = Some "2020-01-01".
Proof.
  apply (datetime_property_sets_default_date
           Sample.collaborators None Examples.start_time None eq_refl eq_refl).
  - discriminate.
  - reflexivity.
Defined.
